(** * Approval-Ratio-Dashboard: the journey analysis core

    A shallow embedding of the analysis functions of the dashboard
    ([improvedAnalyzeData] and [recalculateWithPSPExclusions] of
    [lib/improved-analyzer.ts], [analyzeData] of the analyzer module and
    [analyzeTimeData] / [getISOWeek] of the time analyzer), followed by the
    properties of the specification that concern them.

    Conventions of the embedding:
    - a JavaScript string is a [string] of ASCII code units; [toLowerCase] and
      [trim] act on the ASCII letters and the ASCII white space;
    - an object used as a dictionary ([Record<string, T>]) is a [gmap string T];
      [Object.values] and [Object.entries] enumerate it with [map_to_list], so
      nothing proved here depends on the enumeration order of a dictionary,
      and keys are plain data (inherited properties are not part of the model);
    - a counter is a [nat]; a number obtained by a floating-point division is a
      rational, and every floating-point operation rounds its exact result
      with the rounding function of a [Rounding] (monotone, exact on 0, 1 and
      100, as IEEE-754 round-to-nearest is);
    - a [Date] is its time value, [None] for an invalid date; what the host
      decides (the clock, date parsing, the local time zone, collation) is a
      field of [Host]. *)

From Stdlib Require Import QArith Qround ZArith String Ascii List Lia DecimalString.
From stdpp Require Import gmap strings list fin_maps.

Local Open Scope string_scope.
Local Open Scope list_scope.
Local Open Scope nat_scope.

(** ** Strings *)

Module JsString.

Definition isUpper (c : ascii) : bool :=
  let n := nat_of_ascii c in (65 <=? n) && (n <=? 90).

Definition lowerChar (c : ascii) : ascii :=
  if isUpper c then ascii_of_nat (nat_of_ascii c + 32) else c.

(** [String.prototype.toLowerCase]. *)
Fixpoint toLowerCase (s : string) : string :=
  match s with
  | EmptyString => EmptyString
  | String c s' => String (lowerChar c) (toLowerCase s')
  end.

(** [String.prototype.includes]: [needle] occurs in [s] as a substring. *)
Fixpoint includes (s needle : string) : bool :=
  if String.prefix needle s then true
  else match s with
       | EmptyString => false
       | String _ s' => includes s' needle
       end.

(** White space removed by [trim]: TAB, LF, VT, FF, CR and SPACE. *)
Definition isWhiteSpace (c : ascii) : bool :=
  let n := nat_of_ascii c in ((9 <=? n) && (n <=? 13)) || (n =? 32).

Fixpoint trimStart (s : string) : string :=
  match s with
  | EmptyString => EmptyString
  | String c s' => if isWhiteSpace c then trimStart s' else s
  end.

Fixpoint trimEnd (s : string) : string :=
  match s with
  | EmptyString => EmptyString
  | String c s' =>
      match trimEnd s' with
      | EmptyString => if isWhiteSpace c then EmptyString else String c EmptyString
      | r => String c r
      end
  end.

(** [String.prototype.trim]. *)
Definition trim (s : string) : string := trimEnd (trimStart s).

(** [a || d] on an optional string: [undefined] and the empty string are
    falsy. *)
Definition orElse (a : option string) (d : string) : string :=
  match a with
  | Some (String c s) => String c s
  | _ => d
  end.

(** [String(n)] for an integer. *)
Definition ofZ (n : Z) : string := NilZero.string_of_int (Z.to_int n).

Fixpoint repeatChar (c : ascii) (n : nat) : string :=
  match n with
  | O => EmptyString
  | S n' => String c (repeatChar c n')
  end.

(** [s.padStart(n, "0")]. *)
Definition padStart0 (n : nat) (s : string) : string :=
  (repeatChar "0"%char (n - String.length s) ++ s)%string.

End JsString.

Import JsString.

(** ** Status classification

    The two substring tests that the analyzers repeat inline on
    [status.toLowerCase()]. *)

(** [s.includes("approved") || s.includes("success")] *)
Definition isApprovedStatus (status : string) : bool :=
  let s := toLowerCase status in
  includes s "approved" || includes s "success".

(** [s.includes("declined") || s.includes("fail") || s.includes("error")] *)
Definition isDeclinedStatus (status : string) : bool :=
  let s := toLowerCase status in
  includes s "declined" || includes s "fail" || includes s "error".

(** ** Sets and arrays *)

(** [Set.prototype.add] on a set kept in insertion order. *)
Definition setAdd (s : list string) (x : string) : list string :=
  if bool_decide (x ∈ s) then s else s ++ [x].

(** [new Set(l)], and [[...new Set(l)]]: the distinct elements of [l] in the
    order of their first occurrence. *)
Definition newSet (l : list string) : list string := foldl setAdd [] l.

(** [Array.prototype.sort(cmp)]: a stable sort; [cmp a b <= 0] keeps [a]
    before [b].  For a consistent comparator this is the order ECMAScript
    prescribes. *)
Fixpoint sortInsert {A} (cmp : A → A → Z) (x : A) (l : list A) : list A :=
  match l with
  | [] => [x]
  | y :: l' => if (cmp x y <=? 0)%Z then x :: l else y :: sortInsert cmp x l'
  end.

Definition arraySort {A} (cmp : A → A → Z) (l : list A) : list A :=
  foldr (sortInsert cmp) [] l.

(** [Object.values(m)]. *)
Definition objectValues {V} (m : gmap string V) : list V :=
  (map_to_list m).*2.

(** [a.filter(p).length]. *)
Definition countIf {A} (p : A → bool) (l : list A) : nat :=
  length (List.filter p l).

(** ** Dates *)

(** The time value of a [Date] in milliseconds since the epoch; [None] is an
    invalid date. *)
Definition JSDate := option Z.

(** [processing_date?: Date | string] *)
Inductive DateField :=
  | DateObject (d : JSDate)
  | DateString (s : string).

(** The comparator the analyzers pass to [sort]: attempts without a
    timestamp go last, the others by time; a [NaN] difference counts as 0. *)
Definition compareTimestamps (a b : option JSDate) : Z :=
  match a, b with
  | None, _ => 1
  | Some _, None => -1
  | Some (Some ta), Some (Some tb) => ta - tb
  | Some _, Some _ => 0
  end.

(** ** Numbers *)

(** The rounding of the floating-point operations. *)
Record Rounding := {
  rnd : Q → Q;
  rnd_mono : ∀ x y, (x <= y)%Q → (rnd x <= rnd y)%Q;
  rnd_0 : (rnd 0 == 0)%Q;
  rnd_1 : (rnd 1 == 1)%Q;
  rnd_100 : (rnd 100 == 100)%Q
}.

(** Exact arithmetic is a rounding. *)
Definition exactRounding : Rounding.
Proof.
  refine {| rnd := fun x => x |}; intros; try assumption; reflexivity.
Defined.

Definition ofNat (n : nat) : Q := inject_Z (Z.of_nat n).

(** [(num / den) * 100] *)
Definition times100 (R : Rounding) (num den : nat) : Q :=
  rnd R (rnd R (ofNat num / ofNat den) * 100).

(** [den > 0 ? (num / den) * 100 : 0] *)
Definition percentOrZero (R : Rounding) (num den : nat) : Q :=
  if (0 <? den)%nat then times100 R num den else 0%Q.

(** [x.toFixed(2)] read back as a number ([Number.parseFloat], [Number]):
    the closest multiple of 1/100, the larger one on a tie, then rounded. *)
Definition toFixed2 (R : Rounding) (x : Q) : Q :=
  if Qle_bool 0 x
  then rnd R (inject_Z (Qfloor (x * 100 + (1 # 2))) / 100)
  else rnd R (- (inject_Z (Qfloor (- x * 100 + (1 # 2))) / 100)).

(** ** The host *)

Record Host := {
  (** [Date.now()] when the transaction at this index of the input is read *)
  dateNow : nat → Z;
  (** the time value of [new Date(s)] for a string *)
  dateParse : string → JSDate;
  (** local time minus UTC, in milliseconds *)
  tzOffset : Z;
  (** [a.localeCompare(b)] *)
  localeCompare : string → string → Z
}.

(** ** Transactions *)

Module Tx.

Record Transaction := {
  transactionId : option string;
  merchantOrderId : option string;
  pspName : option string;
  country : option string;
  status : option string;
  merchantAmount : option Q;
  currency : option string;
  processing_date : option DateField
}.

End Tx.

Abbreviation Transaction := Tx.Transaction.

(** [tx.merchantOrderId || tx.transactionId || "unknown"] *)
Definition orderIdOf (tx : Transaction) : string :=
  orElse (Tx.merchantOrderId tx) (orElse (Tx.transactionId tx) "unknown").

(** [(tx.pspName || "Unknown").trim()] *)
Definition pspNameOf (tx : Transaction) : string :=
  trim (orElse (Tx.pspName tx) "Unknown").

(** [(tx.country || "Unknown").trim()] *)
Definition countryOf (tx : Transaction) : string :=
  trim (orElse (Tx.country tx) "Unknown").

(** [tx.status || "unknown"] *)
Definition statusOf (tx : Transaction) : string :=
  orElse (Tx.status tx) "unknown".

(** ** [lib/improved-analyzer.ts] *)

Module Improved.

Record Attempt := {
  pspName : string;
  status : string;
  timestamp : option JSDate;
  amount : option Q;
  currency : option string;
  position : nat
}.

Inductive FinalStatus := success | failed.

Definition isSuccess (s : FinalStatus) : bool :=
  match s with success => true | failed => false end.

Definition isFailed (s : FinalStatus) : bool :=
  match s with success => false | failed => true end.

Record TransactionJourney := {
  transactionId : string;
  merchantOrderId : string;
  country : string;
  attempts : list Attempt;
  finalStatus : FinalStatus;
  totalAttempts : nat;
  pspsInvolved : list string;
  approvedBy : option string;
  date : JSDate
}.

Record PSPStats := {
  psTotalAttempts : nat;
  approvedAttempts : nat;
  declinedAttempts : nat;
  uniqueApproved : nat;
  uniqueDeclined : nat;
  individualApprovalRate : Q;
  trueApprovalRate : Q;
  avgPosition : Q
}.

Record PSPBreakdown := {
  approvedTransactions : nat;
  declinedTransactions : nat;
  totalTransactions : nat;
  pbSuccessRate : Q
}.

Record CountryBreakdown := {
  cbTotalApprovedTransactions : nat;
  cbTotalUniqueDeclinedTransactions : nat;
  cbTotalProcessedTransactions : nat;
  successRate : Q;
  pspBreakdown : gmap string PSPBreakdown
}.

(** The four totals shared by [pspLevelMetrics], [transactionLevelMetrics]
    and the result of [recalculateWithPSPExclusions]. *)
Record Totals := {
  totalApprovedTransactions : nat;
  totalUniqueDeclinedTransactions : nat;
  totalProcessedTransactions : nat;
  weightedSuccessRate : Q
}.

Record ImprovedAnalysisResults := {
  transactionJourneys : gmap string TransactionJourney;
  pspStats : gmap string PSPStats;
  pspLevelMetrics : Totals;
  countryBreakdown : gmap string CountryBreakdown;
  transactionLevelMetrics : Totals
}.

(** *** First pass: group the transactions by order *)

(** [tx.processing_date instanceof Date ? tx.processing_date
     : new Date(tx.processing_date || Date.now())] *)
Definition dateOf (H : Host) (i : nat) (tx : Transaction) : JSDate :=
  match Tx.processing_date tx with
  | Some (DateObject d) => d
  | Some (DateString (String c s)) => dateParse H (String c s)
  | _ => Some (dateNow H i)
  end.

Definition newJourney (orderId : string) (d : JSDate) (tx : Transaction)
  : TransactionJourney :=
  {| transactionId := orElse (Tx.transactionId tx) orderId;
     merchantOrderId := orderId;
     country := countryOf tx;
     attempts := [];
     finalStatus := failed;
     totalAttempts := 0;
     pspsInvolved := [];
     approvedBy := None;
     date := d |}.

Definition newAttempt (d : JSDate) (tx : Transaction) : Attempt :=
  {| pspName := pspNameOf tx;
     status := statusOf tx;
     timestamp := Some d;
     amount := Tx.merchantAmount tx;
     currency := Tx.currency tx;
     position := 0 |}.

Definition pushAttempt (a : Attempt) (j : TransactionJourney)
  : TransactionJourney :=
  {| transactionId := transactionId j;
     merchantOrderId := merchantOrderId j;
     country := country j;
     attempts := attempts j ++ [a];
     finalStatus := finalStatus j;
     totalAttempts := totalAttempts j;
     pspsInvolved := pspsInvolved j;
     approvedBy := approvedBy j;
     date := date j |}.

(** The body of the first [forEach], for the transaction at index [i]. *)
Definition addTransaction (H : Host)
    (journeys : gmap string TransactionJourney) (i : nat) (tx : Transaction)
  : gmap string TransactionJourney :=
  let orderId := orderIdOf tx in
  let d := dateOf H i tx in
  let journeys1 :=
    match journeys !! orderId with
    | Some _ => journeys
    | None => <[orderId := newJourney orderId d tx]> journeys
    end in
  alter (pushAttempt (newAttempt d tx)) orderId journeys1.

Fixpoint groupFrom (H : Host) (i : nat) (txs : list Transaction)
    (journeys : gmap string TransactionJourney)
  : gmap string TransactionJourney :=
  match txs with
  | [] => journeys
  | tx :: rest => groupFrom H (S i) rest (addTransaction H journeys i tx)
  end.

(** *** Second pass: order, positions, PSPs involved, final status *)

Definition hasTimestamp (a : Attempt) : bool :=
  match timestamp a with Some _ => true | None => false end.

Definition sortAttempts (l : list Attempt) : list Attempt :=
  if existsb hasTimestamp l
  then arraySort (fun a b => compareTimestamps (timestamp a) (timestamp b)) l
  else l.

Definition setPosition (index : nat) (a : Attempt) : Attempt :=
  {| pspName := pspName a;
     status := status a;
     timestamp := timestamp a;
     amount := amount a;
     currency := currency a;
     position := index + 1 |}.

Definition isApproving (a : Attempt) : bool := isApprovedStatus (status a).

(** The body of the second [forEach]. *)
Definition finalize (j : TransactionJourney) : TransactionJourney :=
  let sorted := imap setPosition (sortAttempts (attempts j)) in
  let successfulAttempt := List.find isApproving sorted in
  {| transactionId := transactionId j;
     merchantOrderId := merchantOrderId j;
     country := country j;
     attempts := sorted;
     finalStatus :=
       match successfulAttempt with Some _ => success | None => failed end;
     totalAttempts := length sorted;
     pspsInvolved := newSet (pspName <$> sorted);
     approvedBy :=
       match successfulAttempt with
       | Some a => Some (pspName a)
       | None => approvedBy j
       end;
     date := date j |}.

Definition buildJourneys (H : Host) (txs : list Transaction)
  : gmap string TransactionJourney :=
  finalize <$> groupFrom H 0 txs ∅.

(** *** PSP-level metrics *)

Definition zeroStats : PSPStats :=
  {| psTotalAttempts := 0; approvedAttempts := 0; declinedAttempts := 0;
     uniqueApproved := 0; uniqueDeclined := 0;
     individualApprovalRate := 0; trueApprovalRate := 0; avgPosition := 0 |}.

Definition initStats (stats : gmap string PSPStats) (a : Attempt)
  : gmap string PSPStats :=
  match stats !! pspName a with
  | Some _ => stats
  | None => <[pspName a := zeroStats]> stats
  end.

(** [psp.totalAttempts++] and the two outcome counters of one attempt. *)
Definition bumpAttempt (st : string) (psp : PSPStats) : PSPStats :=
  {| psTotalAttempts := S (psTotalAttempts psp);
     approvedAttempts :=
       if isApprovedStatus st then S (approvedAttempts psp)
       else approvedAttempts psp;
     declinedAttempts :=
       if isApprovedStatus st then declinedAttempts psp
       else if isDeclinedStatus st then S (declinedAttempts psp)
       else declinedAttempts psp;
     uniqueApproved := uniqueApproved psp;
     uniqueDeclined := uniqueDeclined psp;
     individualApprovalRate := individualApprovalRate psp;
     trueApprovalRate := trueApprovalRate psp;
     avgPosition := avgPosition psp |}.

Definition countAttempt (stats : gmap string PSPStats) (a : Attempt)
  : gmap string PSPStats :=
  alter (bumpAttempt (status a)) (pspName a) stats.

(** [journey.attempts.some(a => a.pspName === pspName && approving a)] *)
Definition pspApprovedThisJourney (j : TransactionJourney) (name : string)
  : bool :=
  existsb (fun a => bool_decide (pspName a = name) && isApproving a)
          (attempts j).

(** [psp.uniqueApproved++] or [psp.uniqueDeclined++]. *)
Definition bumpUnique (approved : bool) (psp : PSPStats) : PSPStats :=
  {| psTotalAttempts := psTotalAttempts psp;
     approvedAttempts := approvedAttempts psp;
     declinedAttempts := declinedAttempts psp;
     uniqueApproved :=
       if approved then S (uniqueApproved psp) else uniqueApproved psp;
     uniqueDeclined :=
       if approved then uniqueDeclined psp else S (uniqueDeclined psp);
     individualApprovalRate := individualApprovalRate psp;
     trueApprovalRate := trueApprovalRate psp;
     avgPosition := avgPosition psp |}.

Definition countUnique (j : TransactionJourney)
    (stats : gmap string PSPStats) (name : string) : gmap string PSPStats :=
  alter (bumpUnique (pspApprovedThisJourney j name)) name stats.

(** The set [pspsInJourney] filled from the attempts of [j]. *)
Definition pspsInJourney (j : TransactionJourney) : list string :=
  foldl (fun s a => setAdd s (pspName a)) [] (attempts j).

Definition countJourney (stats : gmap string PSPStats)
    (j : TransactionJourney) : gmap string PSPStats :=
  foldl (countUnique j) stats (pspsInJourney j).

(** The positions of the attempts of PSP [name] over all journeys. *)
Definition positionsOf (journeyArray : list TransactionJourney)
    (name : string) : list nat :=
  flat_map (fun j =>
              position <$> List.filter (fun a => bool_decide (pspName a = name))
                                       (attempts j))
           journeyArray.

(** The body of the [forEach] over [Object.entries(pspStats)]. *)
Definition withRates (R : Rounding) (journeyArray : list TransactionJourney)
    (name : string) (stats : PSPStats) : PSPStats :=
  let positions := positionsOf journeyArray name in
  let uniqueTotal := uniqueApproved stats + uniqueDeclined stats in
  {| psTotalAttempts := psTotalAttempts stats;
     approvedAttempts := approvedAttempts stats;
     declinedAttempts := declinedAttempts stats;
     uniqueApproved := uniqueApproved stats;
     uniqueDeclined := uniqueDeclined stats;
     individualApprovalRate :=
       percentOrZero R (approvedAttempts stats) (psTotalAttempts stats);
     trueApprovalRate := percentOrZero R (uniqueApproved stats) uniqueTotal;
     avgPosition :=
       if 0 <? length positions
       then rnd R (ofNat (foldl Nat.add 0 positions) / ofNat (length positions))
       else 0%Q |}.

Definition computePspStats (R : Rounding)
    (journeyArray : list TransactionJourney) : gmap string PSPStats :=
  let stats0 := foldl (fun st j => foldl initStats st (attempts j)) ∅ journeyArray in
  let stats1 := foldl (fun st j => foldl countAttempt st (attempts j)) stats0 journeyArray in
  let stats2 := foldl countJourney stats1 journeyArray in
  map_imap (fun name st => Some (withRates R journeyArray name st)) stats2.

(** [values.reduce((sum, x) => sum + f(x), 0)] *)
Definition sumOf {A} (f : A → nat) (values : list A) : nat :=
  foldl (fun sum x => sum + f x) 0 values.

Definition mkTotals (R : Rounding) (approved declined : nat) : Totals :=
  {| totalApprovedTransactions := approved;
     totalUniqueDeclinedTransactions := declined;
     totalProcessedTransactions := approved + declined;
     weightedSuccessRate := percentOrZero R approved (approved + declined) |}.

(** *** Country-level metrics *)

Definition groupByCountry (journeyArray : list TransactionJourney)
  : gmap string (list TransactionJourney) :=
  foldl (fun m j => <[country j := default [] (m !! country j) ++ [j]]> m)
        ∅ journeyArray.

Definition countryPSPs (journeys : list TransactionJourney) : list string :=
  foldl (fun s j => foldl setAdd s (pspsInvolved j)) [] journeys.

Definition pspBreakdownEntry (R : Rounding)
    (journeys : list TransactionJourney) (name : string) : PSPBreakdown :=
  let pspJourneys :=
    List.filter (fun j => bool_decide (name ∈ pspsInvolved j)) journeys in
  let approved := countIf (fun j => pspApprovedThisJourney j name) pspJourneys in
  let declined :=
    countIf (fun j => negb (pspApprovedThisJourney j name)) pspJourneys in
  let total := approved + declined in
  {| approvedTransactions := approved;
     declinedTransactions := declined;
     totalTransactions := total;
     pbSuccessRate := percentOrZero R approved total |}.

(** The body of the [forEach] over [Object.entries(journeysByCountry)]. *)
Definition countryMetrics (R : Rounding) (journeys : list TransactionJourney)
  : CountryBreakdown :=
  let totalApproved := countIf (fun j => isSuccess (finalStatus j)) journeys in
  let totalDeclined := countIf (fun j => isFailed (finalStatus j)) journeys in
  let totalProcessed := totalApproved + totalDeclined in
  {| cbTotalApprovedTransactions := totalApproved;
     cbTotalUniqueDeclinedTransactions := totalDeclined;
     cbTotalProcessedTransactions := totalProcessed;
     successRate := percentOrZero R totalApproved totalProcessed;
     pspBreakdown :=
       foldl (fun m name => <[name := pspBreakdownEntry R journeys name]> m)
             ∅ (countryPSPs journeys) |}.

(** *** [improvedAnalyzeData] *)

Definition improvedAnalyzeData (H : Host) (R : Rounding)
    (transactions : list Transaction) : ImprovedAnalysisResults :=
  let journeys := buildJourneys H transactions in
  let journeyArray := objectValues journeys in
  let stats := computePspStats R journeyArray in
  let countries := countryMetrics R <$> groupByCountry journeyArray in
  {| transactionJourneys := journeys;
     pspStats := stats;
     pspLevelMetrics :=
       mkTotals R (sumOf uniqueApproved (objectValues stats))
                  (sumOf uniqueDeclined (objectValues stats));
     countryBreakdown := countries;
     transactionLevelMetrics :=
       mkTotals R (sumOf cbTotalApprovedTransactions (objectValues countries))
                  (sumOf cbTotalUniqueDeclinedTransactions (objectValues countries)) |}.

(** *** [recalculateWithPSPExclusions] *)

Definition excluded (excludedPSPs : list string) (name : string) : bool :=
  bool_decide (name ∈ excludedPSPs).

Definition approvedByNonExcludedPSP (excludedPSPs : list string)
    (j : TransactionJourney) : bool :=
  existsb (fun a => negb (excluded excludedPSPs (pspName a)) && isApproving a)
          (attempts j).

Definition nonExcludedPSPInvolved (excludedPSPs : list string)
    (j : TransactionJourney) : bool :=
  existsb (fun a => negb (excluded excludedPSPs (pspName a))) (attempts j).

(** The body of the [forEach] over the filtered journeys, on the pair
    [(totalApproved, totalDeclined)]. *)
Definition recount (excludedPSPs : list string) (acc : nat * nat)
    (j : TransactionJourney) : nat * nat :=
  if approvedByNonExcludedPSP excludedPSPs j then (S acc.1, acc.2)
  else if nonExcludedPSPInvolved excludedPSPs j then (acc.1, S acc.2)
  else acc.

Definition recalculateWithPSPExclusions (R : Rounding)
    (results : ImprovedAnalysisResults) (excludedPSPs : list string) : Totals :=
  match excludedPSPs with
  | [] =>
      {| totalApprovedTransactions :=
           totalApprovedTransactions (transactionLevelMetrics results);
         totalUniqueDeclinedTransactions :=
           totalUniqueDeclinedTransactions (transactionLevelMetrics results);
         totalProcessedTransactions :=
           totalProcessedTransactions (transactionLevelMetrics results);
         weightedSuccessRate :=
           weightedSuccessRate (transactionLevelMetrics results) |}
  | _ =>
      let filteredJourneys :=
        List.filter
          (fun j => existsb (fun psp => negb (excluded excludedPSPs psp))
                            (pspsInvolved j))
          (objectValues (transactionJourneys results)) in
      let '(totalApproved, totalDeclined) :=
        foldl (recount excludedPSPs) (0, 0) filteredJourneys in
      mkTotals R totalApproved totalDeclined
  end.

End Improved.

(** ** The calendar of [Date]

    Time values are milliseconds since 1970-01-01T00:00:00Z; the local time
    zone is at a fixed offset from UTC. *)

Module JsDate.

Local Open Scope Z_scope.

Definition msPerDay : Z := 24 * 60 * 60 * 1000.

(** [Day(t)] *)
Definition day (t : Z) : Z := t / msPerDay.

(** [DayFromYear(y)]: the day number of January 1 of year [y]. *)
Definition dayFromYear (y : Z) : Z :=
  365 * (y - 1970) + (y - 1969) / 4 - (y - 1901) / 100 + (y - 1601) / 400.

(** [WeekDay(t)]: 0 is Sunday. *)
Definition weekDay (t : Z) : Z := (day t + 4) mod 7.

(** Year, month (1 to 12) and day of the month of a day number, in the
    proleptic Gregorian calendar. *)
Definition civilFromDays (d : Z) : Z * Z * Z :=
  let z := d + 719468 in
  let era := z / 146097 in
  let doe := z - era * 146097 in
  let yoe := (doe - doe / 1460 + doe / 36524 - doe / 146096) / 365 in
  let doy := doe - (365 * yoe + yoe / 4 - yoe / 100) in
  let mp := (5 * doy + 2) / 153 in
  let dd := doy - (153 * mp + 2) / 5 + 1 in
  let m := if mp <? 10 then mp + 3 else mp - 9 in
  let y := yoe + era * 400 + (if m <=? 2 then 1 else 0) in
  (y, m, dd).

Definition yearFromTime (t : Z) : Z := (civilFromDays (day t)).1.1.
Definition monthFromTime (t : Z) : Z := (civilFromDays (day t)).1.2 - 1.
Definition dateFromTime (t : Z) : Z := (civilFromDays (day t)).2.

Definition localTime (H : Host) (t : Z) : Z := t + tzOffset H.
Definition utc (H : Host) (t : Z) : Z := t - tzOffset H.

(** [date.getFullYear()], [date.getMonth()], [date.getDay()] *)
Definition getFullYear (H : Host) (t : Z) : Z := yearFromTime (localTime H t).
Definition getMonth (H : Host) (t : Z) : Z := monthFromTime (localTime H t).
Definition getDay (H : Host) (t : Z) : Z := weekDay (localTime H t).

(** The year that the [Date(year, month, day)] constructor takes for its
    first argument: 0 to 99 stand for 1900 to 1999. *)
Definition makeFullYear (year : Z) : Z :=
  if (0 <=? year) && (year <=? 99) then 1900 + year else year.

(** The time value of [new Date(year, 0, 1)]. *)
Definition newDateJan1 (H : Host) (year : Z) : Z :=
  utc H (dayFromYear (makeFullYear year) * msPerDay).

(** [Math.ceil(n / 7)] for an integer [n]. *)
Definition ceilDiv7 (n : Z) : Z := Qceiling (inject_Z n / 7).

(** The decimal digits of a year in [toISOString]: four digits, or a sign
    and six digits outside 0 to 9999. *)
Definition isoYear (y : Z) : string :=
  if (0 <=? y) && (y <=? 9999) then padStart0 4 (ofZ y)
  else ((if (0 <=? y)%Z then "+" else "-") ++ padStart0 6 (ofZ (Z.abs y)))%string.

(** [date.toISOString().split("T")[0]] *)
Definition isoDate (t : Z) : string :=
  (isoYear (yearFromTime t) ++ "-" ++ padStart0 2 (ofZ (monthFromTime t + 1)%Z)
   ++ "-" ++ padStart0 2 (ofZ (dateFromTime t)))%string.

End JsDate.

(** ** The time analyzer *)

Module TimeAnalyzer.

Import JsDate.

Record Attempt := {
  pspName : string;
  status : string;
  timestamp : option JSDate;
  amount : option Q;
  currency : option string
}.

Inductive FinalStatus := success | failed.

Definition isSuccess (s : FinalStatus) : bool :=
  match s with success => true | failed => false end.

Definition isFailed (s : FinalStatus) : bool :=
  match s with success => false | failed => true end.

Record Journey := {
  merchantOrderId : string;
  country : string;
  attempts : list Attempt;
  finalStatus : FinalStatus;
  totalAttempts : nat;
  pspsInvolved : list string;
  date : JSDate
}.

(** The result of [calculateUniqueMetrics]. *)
Record Metrics := {
  total : nat;
  approved : nat;
  declined : nat;
  approvalRate : Q
}.

Record PSPEntry := {
  peTotal : nat;
  peApproved : nat;
  peDeclined : nat;
  approvalRatio : Q
}.

Record DailyEntry := {
  deDate : string;
  deMetrics : Metrics;
  pspBreakdown : gmap string PSPEntry
}.

(** An entry of [weekly] or [monthly]: the period key and its metrics. *)
Record PeriodEntry := {
  period : string;
  peMetrics : Metrics
}.

Record TimeAnalysis := {
  daily : list DailyEntry;
  weekly : list PeriodEntry;
  monthly : list PeriodEntry
}.

(** [getISOWeek(date)]; the fields of an invalid date are [NaN]. *)
Definition getISOWeek (H : Host) (d : JSDate) : string :=
  match d with
  | None => "NaN-WNaN"
  | Some t =>
      let year := getFullYear H t in
      let start := newDateJan1 H year in
      let days := ((t - start) / msPerDay)%Z in
      let week := ceilDiv7 (days + getDay H start + 1) in
      (ofZ year ++ "-W" ++ padStart0 2 (ofZ week))%string
  end.

(** The monthly key. *)
Definition monthKeyOf (H : Host) (d : JSDate) : string :=
  match d with
  | None => "NaN-NaN"
  | Some t =>
      (ofZ (getFullYear H t) ++ "-"
       ++ padStart0 2 (ofZ (getMonth H t + 1)%Z))%string
  end.

(** The daily key; [toISOString] throws on an invalid date. *)
Definition dayKeyOf (d : JSDate) : option string :=
  match d with
  | None => None
  | Some t => Some (isoDate t)
  end.

(** The time value of [new Date(tx.processing_date)] or of the date itself. *)
Definition dateOf (H : Host) (tx : Transaction) : JSDate :=
  match Tx.processing_date tx with
  | Some (DateObject d) => d
  | Some (DateString s) => dateParse H s
  | None => None
  end.

(** The filter of the valid transactions. *)
Definition isValid (H : Host) (tx : Transaction) : bool :=
  match Tx.processing_date tx with
  | None => false
  | Some (DateString EmptyString) => false
  | Some _ => match dateOf H tx with Some _ => true | None => false end
  end.

Definition newJourney (orderId : string) (d : JSDate) (tx : Transaction)
  : Journey :=
  {| merchantOrderId := orderId;
     country := countryOf tx;
     attempts := [];
     finalStatus := failed;
     totalAttempts := 0;
     pspsInvolved := [];
     date := d |}.

Definition newAttempt (d : JSDate) (tx : Transaction) : Attempt :=
  {| pspName := pspNameOf tx;
     status := statusOf tx;
     timestamp := Some d;
     amount := Tx.merchantAmount tx;
     currency := Tx.currency tx |}.

Definition pushAttempt (a : Attempt) (j : Journey) : Journey :=
  {| merchantOrderId := merchantOrderId j;
     country := country j;
     attempts := attempts j ++ [a];
     finalStatus := finalStatus j;
     totalAttempts := totalAttempts j;
     pspsInvolved := pspsInvolved j;
     date := date j |}.

Definition addTransaction (H : Host) (journeys : gmap string Journey)
    (tx : Transaction) : gmap string Journey :=
  let orderId := orderIdOf tx in
  let d := dateOf H tx in
  let journeys1 :=
    match journeys !! orderId with
    | Some _ => journeys
    | None => <[orderId := newJourney orderId d tx]> journeys
    end in
  alter (pushAttempt (newAttempt d tx)) orderId journeys1.

Definition isApproving (a : Attempt) : bool := isApprovedStatus (status a).

Definition finalize (j : Journey) : Journey :=
  let sorted :=
    arraySort (fun a b => compareTimestamps (timestamp a) (timestamp b))
              (attempts j) in
  {| merchantOrderId := merchantOrderId j;
     country := country j;
     attempts := sorted;
     finalStatus := if existsb isApproving sorted then success else failed;
     totalAttempts := length sorted;
     pspsInvolved := newSet (pspName <$> sorted);
     date := date j |}.

Definition buildJourneys (H : Host) (validTransactions : list Transaction)
  : gmap string Journey :=
  finalize <$> foldl (addTransaction H) ∅ validTransactions.

(** [calculateUniqueMetrics(journeys)] *)
Definition calculateUniqueMetrics (R : Rounding) (journeys : list Journey)
  : Metrics :=
  let approved := countIf (fun j => isSuccess (finalStatus j)) journeys in
  let declined := countIf (fun j => isFailed (finalStatus j)) journeys in
  let total := approved + declined in
  {| total := total;
     approved := approved;
     declined := declined;
     approvalRate := toFixed2 R (percentOrZero R approved total) |}.

Definition pspApprovedThisJourney (j : Journey) (name : string) : bool :=
  existsb (fun a => bool_decide (pspName a = name) && isApproving a)
          (attempts j).

Definition allPSPs (journeys : list Journey) : list string :=
  foldl (fun s j => foldl setAdd s (pspsInvolved j)) [] journeys.

Definition pspEntry (R : Rounding) (journeys : list Journey) (name : string)
  : PSPEntry :=
  let pspJourneys :=
    List.filter (fun j => bool_decide (name ∈ pspsInvolved j)) journeys in
  let approved := countIf (fun j => pspApprovedThisJourney j name) pspJourneys in
  let declined :=
    countIf (fun j => negb (pspApprovedThisJourney j name)) pspJourneys in
  let total := approved + declined in
  {| peTotal := total;
     peApproved := approved;
     peDeclined := declined;
     approvalRatio := toFixed2 R (percentOrZero R approved total) |}.

(** [processTimeGroupWithPSPs(date, journeys)] *)
Definition processTimeGroupWithPSPs (R : Rounding) (d : string)
    (journeys : list Journey) : DailyEntry :=
  {| deDate := d;
     deMetrics := calculateUniqueMetrics R journeys;
     pspBreakdown :=
       foldl (fun m name => <[name := pspEntry R journeys name]> m)
             ∅ (allPSPs journeys) |}.

(** [if (!groups[key]) groups[key] = []; groups[key].push(journey)] *)
Definition pushGroup (key : string) (j : Journey)
    (groups : gmap string (list Journey)) : gmap string (list Journey) :=
  <[key := default [] (groups !! key) ++ [j]]> groups.

Record Groups := {
  dailyGroups : gmap string (list Journey);
  weeklyGroups : gmap string (list Journey);
  monthlyGroups : gmap string (list Journey)
}.

(** The body of the grouping [forEach]; [None] when [toISOString] throws. *)
Definition groupJourney (H : Host) (g : option Groups) (j : Journey)
  : option Groups :=
  g ≫= fun g =>
  dayKey ← dayKeyOf (date j);
  Some {| dailyGroups := pushGroup dayKey j (dailyGroups g);
          weeklyGroups := pushGroup (getISOWeek H (date j)) j (weeklyGroups g);
          monthlyGroups := pushGroup (monthKeyOf H (date j)) j (monthlyGroups g) |}.

Definition groupJourneys (H : Host) (journeyArray : list Journey)
  : option Groups :=
  foldl (groupJourney H)
        (Some {| dailyGroups := ∅; weeklyGroups := ∅; monthlyGroups := ∅ |})
        journeyArray.

Definition periodEntries (H : Host) (R : Rounding)
    (groups : gmap string (list Journey)) : list PeriodEntry :=
  arraySort (fun a b => localeCompare H (period a) (period b))
    ((fun e => {| period := e.1; peMetrics := calculateUniqueMetrics R e.2 |})
       <$> map_to_list groups).

(** [analyzeTimeData(transactions)]; [None] stands for a thrown exception. *)
Definition analyzeTimeData (H : Host) (R : Rounding)
    (transactions : list Transaction) : option TimeAnalysis :=
  let validTransactions := List.filter (isValid H) transactions in
  match validTransactions with
  | [] => Some {| daily := []; weekly := []; monthly := [] |}
  | _ =>
      let journeyArray := objectValues (buildJourneys H validTransactions) in
      g ← groupJourneys H journeyArray;
      Some {| daily :=
                arraySort (fun a b => localeCompare H (deDate a) (deDate b))
                  ((fun e => processTimeGroupWithPSPs R e.1 e.2)
                     <$> map_to_list (dailyGroups g));
              weekly := periodEntries H R (weeklyGroups g);
              monthly := periodEntries H R (monthlyGroups g) |}
  end.

End TimeAnalyzer.

(** ** The analyzer ([analyzeData]) *)

Module Analyzer.

Record Attempt := {
  pspName : string;
  status : string;
  timestamp : option JSDate;
  amount : option Q;
  currency : option string
}.

Inductive FinalStatus := success | failed.

Definition isSuccess (s : FinalStatus) : bool :=
  match s with success => true | failed => false end.

Record Journey := {
  merchantOrderId : string;
  country : string;
  attempts : list Attempt;
  finalStatus : FinalStatus;
  totalAttempts : nat;
  pspsInvolved : list string
}.

Record PSPStats := {
  total : nat;
  approved : nat;
  declined : nat;
  filtered : nat;
  other : nat;
  approvalRatio : Q;
  declineRatio : Q
}.

Record CountryStats := {
  csStats : PSPStats;
  pspBreakdown : gmap string PSPStats
}.

(** An element of the local array [retriedTransactions]. *)
Record Retried := {
  rtMerchantOrderId : string;
  rtPspName : string;
  rtAttempts : nat;
  rtFinalStatus : string;
  rtCountry : string
}.

(** An element of the local array [crossPSPFlows]. *)
Record Flow := {
  flMerchantOrderId : string;
  approvedBy : string;
  declinedBy : list string;
  flCountry : string;
  flAmount : option Q;
  flCurrency : option string
}.

(** [RetriedTransaction] of the result. *)
Record RetriedTransaction := {
  transactionId : string;
  rAttempts : nat;
  psps : list string;
  countries : list string;
  rFinalStatus : string;
  firstAttempt : option Transaction;
  lastAttempt : option Transaction;
  allAttempts : list Transaction
}.

(** [CrossPSPFlow] of the result. *)
Record CrossPSPFlow := {
  fromPSP : string;
  toPSP : option string;
  count : nat;
  reason : string
}.

Record DeclineCategory := {
  dcReason : string;
  dcCount : nat
}.

Record AnalysisResults := {
  pspAnalysis : gmap string PSPStats;
  countryAnalysis : gmap string CountryStats;
  totalTransactions : nat;
  overallApprovalRate : Q;
  retriedTransactions : list RetriedTransaction;
  crossPSPFlows : list CrossPSPFlow;
  declineReasons : list DeclineCategory;
  timeAnalysis : TimeAnalyzer.TimeAnalysis;
  transactions : list Transaction
}.

(** *** The journeys *)

Definition newJourney (orderId : string) (tx : Transaction) : Journey :=
  {| merchantOrderId := orderId;
     country := countryOf tx;
     attempts := [];
     finalStatus := failed;
     totalAttempts := 0;
     pspsInvolved := [] |}.

(** [tx.processing_date instanceof Date ? tx.processing_date : undefined] *)
Definition timestampOf (tx : Transaction) : option JSDate :=
  match Tx.processing_date tx with
  | Some (DateObject d) => Some d
  | _ => None
  end.

Definition newAttempt (tx : Transaction) : Attempt :=
  {| pspName := pspNameOf tx;
     status := statusOf tx;
     timestamp := timestampOf tx;
     amount := Tx.merchantAmount tx;
     currency := Tx.currency tx |}.

Definition pushAttempt (a : Attempt) (j : Journey) : Journey :=
  {| merchantOrderId := merchantOrderId j;
     country := country j;
     attempts := attempts j ++ [a];
     finalStatus := finalStatus j;
     totalAttempts := totalAttempts j;
     pspsInvolved := pspsInvolved j |}.

Definition addTransaction (journeys : gmap string Journey) (tx : Transaction)
  : gmap string Journey :=
  let orderId := orderIdOf tx in
  let journeys1 :=
    match journeys !! orderId with
    | Some _ => journeys
    | None => <[orderId := newJourney orderId tx]> journeys
    end in
  alter (pushAttempt (newAttempt tx)) orderId journeys1.

Definition hasTimestamp (a : Attempt) : bool :=
  match timestamp a with Some _ => true | None => false end.

Definition sortAttempts (l : list Attempt) : list Attempt :=
  if existsb hasTimestamp l
  then arraySort (fun a b => compareTimestamps (timestamp a) (timestamp b)) l
  else l.

Definition isApproving (a : Attempt) : bool := isApprovedStatus (status a).

Definition finalize (j : Journey) : Journey :=
  let sorted := sortAttempts (attempts j) in
  {| merchantOrderId := merchantOrderId j;
     country := country j;
     attempts := sorted;
     finalStatus := if existsb isApproving sorted then success else failed;
     totalAttempts := length sorted;
     pspsInvolved := newSet (pspName <$> sorted) |}.

Definition buildJourneys (txs : list Transaction) : gmap string Journey :=
  finalize <$> foldl addTransaction ∅ txs.

(** *** PSP and country statistics *)

Definition zeroStats : PSPStats :=
  {| total := 0; approved := 0; declined := 0; filtered := 0; other := 0;
     approvalRatio := 0; declineRatio := 0 |}.

(** [stats.total++] and then [stats.approved++] or [stats.declined++]. *)
Definition bump (isApproved : bool) (s : PSPStats) : PSPStats :=
  {| total := S (total s);
     approved := if isApproved then S (approved s) else approved s;
     declined := if isApproved then declined s else S (declined s);
     filtered := filtered s;
     other := other s;
     approvalRatio := approvalRatio s;
     declineRatio := declineRatio s |}.

(** [if (!m[key]) m[key] = zero] *)
Definition ensure {V} (key : string) (zero : V) (m : gmap string V)
  : gmap string V :=
  match m !! key with
  | Some _ => m
  | None => <[key := zero]> m
  end.

Definition pspApprovedThisJourney (j : Journey) (name : string) : bool :=
  existsb (fun a => bool_decide (pspName a = name) && isApproving a)
          (attempts j).

Definition pspsInJourney (j : Journey) : list string :=
  foldl (fun s a => setAdd s (pspName a)) [] (attempts j).

Definition bumpBreakdown (name : string) (isApproved : bool)
    (c : CountryStats) : CountryStats :=
  {| csStats := csStats c;
     pspBreakdown :=
       alter (bump isApproved) name (ensure name zeroStats (pspBreakdown c)) |}.

(** The body of the [forEach] over [pspsInJourney]. *)
Definition countPsp (j : Journey)
    (acc : gmap string PSPStats * gmap string CountryStats) (name : string)
  : gmap string PSPStats * gmap string CountryStats :=
  let isApproved := pspApprovedThisJourney j name in
  (alter (bump isApproved) name (ensure name zeroStats acc.1),
   alter (bumpBreakdown name isApproved) (country j) acc.2).

Definition bumpCountry (isApproved : bool) (c : CountryStats) : CountryStats :=
  {| csStats := bump isApproved (csStats c);
     pspBreakdown := pspBreakdown c |}.

(** The body of the [forEach] over the journeys. *)
Definition countJourney
    (acc : gmap string PSPStats * gmap string CountryStats) (j : Journey)
  : gmap string PSPStats * gmap string CountryStats :=
  let countries :=
    alter (bumpCountry (isSuccess (finalStatus j))) (country j)
          (ensure (country j) {| csStats := zeroStats; pspBreakdown := ∅ |}
                  acc.2) in
  foldl (countPsp j) (acc.1, countries) (pspsInJourney j).

(** [Number.parseFloat(((num / den) * 100).toFixed(2))] *)
Definition ratio2 (R : Rounding) (num den : nat) : Q :=
  toFixed2 R (times100 R num den).

(** The ratios of one statistics record. *)
Definition withRatios (R : Rounding) (s : PSPStats) : PSPStats :=
  let totalProcessed := approved s + declined s in
  if 0 <? totalProcessed
  then {| total := total s; approved := approved s; declined := declined s;
          filtered := filtered s; other := other s;
          approvalRatio := ratio2 R (approved s) totalProcessed;
          declineRatio := ratio2 R (declined s) totalProcessed |}
  else s.

Definition withCountryRatios (R : Rounding) (c : CountryStats) : CountryStats :=
  {| csStats := withRatios R (csStats c);
     pspBreakdown := withRatios R <$> pspBreakdown c |}.

(** *** Retried transactions and cross-PSP flows *)

(** [pspAttempts]: the number of attempts of each PSP in the journey. *)
Definition pspAttempts (j : Journey) : gmap string nat :=
  foldl (fun m a => <[pspName a := default 0 (m !! pspName a) + 1]> m)
        ∅ (attempts j).

Definition retriedOf (j : Journey) : list Retried :=
  if 1 <? totalAttempts j
  then
    (fun e => {| rtMerchantOrderId := merchantOrderId j;
                 rtPspName := e.1;
                 rtAttempts := e.2;
                 rtFinalStatus :=
                   if isSuccess (finalStatus j) then "approved" else "declined";
                 rtCountry := country j |})
      <$> List.filter (fun e => 1 <? e.2) (map_to_list (pspAttempts j))
  else [].

(** The body of the [forEach] that fills [declinedPSPs]. *)
Definition addDeclined (approvedAttempt : Attempt) (declinedPSPs : list string)
    (a : Attempt) : list string :=
  if negb (bool_decide (pspName a = pspName approvedAttempt))
  then if isDeclinedStatus (status a)
       then if negb (bool_decide (pspName a ∈ declinedPSPs))
            then declinedPSPs ++ [pspName a]
            else declinedPSPs
       else declinedPSPs
  else declinedPSPs.

(** The flow that a journey pushes to [crossPSPFlows], if it pushes one. *)
Definition flowOf (j : Journey) : option Flow :=
  if (1 <? length (pspsInvolved j)) && isSuccess (finalStatus j)
  then match List.find isApproving (attempts j) with
       | Some approvedAttempt =>
           let declinedPSPs :=
             foldl (addDeclined approvedAttempt) [] (attempts j) in
           if 0 <? length declinedPSPs
           then Some {| flMerchantOrderId := merchantOrderId j;
                        approvedBy := pspName approvedAttempt;
                        declinedBy := declinedPSPs;
                        flCountry := country j;
                        flAmount := amount approvedAttempt;
                        flCurrency := currency approvedAttempt |}
           else None
       | None => None
       end
  else None.

(** The local arrays after the [forEach] over the journeys. *)
Definition retriedList (journeyArray : list Journey) : list Retried :=
  flat_map retriedOf journeyArray.

Definition flowList (journeyArray : list Journey) : list Flow :=
  omap flowOf journeyArray.

(** *** The formatted lists of the result *)

Definition truthy (o : option string) : option string :=
  match o with
  | Some (String c s) => Some (String c s)
  | _ => None
  end.

Definition formatRetried (txs : list Transaction) (tx : Retried)
  : RetriedTransaction :=
  let attempts :=
    List.filter
      (fun t => bool_decide (Tx.merchantOrderId t = Some (rtMerchantOrderId tx)))
      txs in
  {| transactionId := rtMerchantOrderId tx;
     rAttempts := rtAttempts tx;
     psps := newSet (omap (fun t => truthy (Tx.pspName t)) attempts);
     countries := newSet (omap (fun t => truthy (Tx.country t)) attempts);
     rFinalStatus := rtFinalStatus tx;
     firstAttempt := head attempts;
     lastAttempt := last attempts;
     allAttempts := attempts |}.

(** The entry made from the flow at index [key] of [crossPSPFlows]:
    [key.split('_')] has the index alone. *)
Definition formatFlow (key : nat) (flow : Flow) : CrossPSPFlow :=
  {| fromPSP := ofZ (Z.of_nat key);
     toPSP := None;
     count := length (declinedBy flow);
     reason := "Unknown" |}.

(** *** [analyzeData] *)

Definition analyze (R : Rounding) (journeyArray : list Journey)
  : gmap string PSPStats * gmap string CountryStats :=
  let counted := foldl countJourney (∅, ∅) journeyArray in
  (withRatios R <$> counted.1, withCountryRatios R <$> counted.2).

Definition sumOf {A} (f : A → nat) (values : list A) : nat :=
  foldl (fun sum x => sum + f x) 0 values.

(** [analyzeData(transactions)]; [None] stands for a thrown exception. *)
Definition analyzeData (H : Host) (R : Rounding)
    (txs : list Transaction) : option AnalysisResults :=
  let journeyArray := objectValues (buildJourneys txs) in
  let stats := analyze R journeyArray in
  let totalApproved := sumOf approved (objectValues stats.1) in
  let totalDeclined := sumOf declined (objectValues stats.1) in
  let totalProcessed := totalApproved + totalDeclined in
  time ← TimeAnalyzer.analyzeTimeData H R txs;
  Some {| pspAnalysis := stats.1;
          countryAnalysis := stats.2;
          totalTransactions := length txs;
          overallApprovalRate :=
            if 0 <? totalProcessed
            then ratio2 R totalApproved totalProcessed
            else 0%Q;
          retriedTransactions :=
            formatRetried txs
              <$> List.filter (fun tx => 1 <? rtAttempts tx)
                              (retriedList journeyArray);
          crossPSPFlows := imap formatFlow (flowList journeyArray);
          declineReasons := [];
          timeAnalysis := time;
          transactions := txs |}.

End Analyzer.

(** ** What the specification counts

    The quantities of the specification, written from its words over the
    journeys of a result. *)

Module Spec.

Import Improved.

(** PSP [P] is involved in journey [j]. *)
Definition involves (P : string) (j : TransactionJourney) : bool :=
  bool_decide (P ∈ pspsInvolved j).

(** Some attempt by [P] within [j] has an approving status. *)
Definition approvedIn (P : string) (j : TransactionJourney) : bool :=
  existsb (fun a => bool_decide (pspName a = P) && isApprovedStatus (status a))
          (attempts j).

(** The number of journeys that involve [P]. *)
Definition journeysInvolving (P : string) (js : list TransactionJourney) : nat :=
  countIf (involves P) js.

(** The number of journeys that involve [P] and that [P] approved. *)
Definition journeysApprovedBy (P : string) (js : list TransactionJourney) : nat :=
  countIf (fun j => involves P j && approvedIn P j) js.

(** The number of journeys that involve [P] and that [P] did not approve. *)
Definition journeysDeclinedBy (P : string) (js : list TransactionJourney) : nat :=
  countIf (fun j => involves P j && negb (approvedIn P j)) js.

(** The number of journeys whose final status is [success]. *)
Definition successfulJourneys (js : list TransactionJourney) : nat :=
  countIf (fun j => isSuccess (finalStatus j)) js.




(** The day of the year of the time value [t]: the number of days from
    January 1 of its local year to its local day. *)
Definition dayOfYear (H : Host) (t : Z) : Z :=
  (JsDate.day (JsDate.localTime H t)
   - JsDate.dayFromYear (JsDate.getFullYear H t))%Z.

(** The weekday of January 1 of the local year of [t]. *)
Definition jan1Weekday (H : Host) (t : Z) : Z :=
  JsDate.weekDay (JsDate.dayFromYear (JsDate.getFullYear H t) * JsDate.msPerDay).

(** The weekly key as the specification words it: the year, ["-W"], and
    [ceil((dayOfYear + Jan1Weekday + 1) / 7)] on two digits. *)
Definition weekKey (H : Host) (t : Z) : string :=
  (ofZ (JsDate.getFullYear H t) ++ "-W"
   ++ padStart0 2
        (ofZ (Qceiling (inject_Z (dayOfYear H t + jan1Weekday H t + 1) / 7))))%string.


End Spec.

(** ** Invariants of the journeys *)

Module Inv.

(** A journey of [improvedAnalyzeData] after the second pass. *)
Definition improvedJourney (j : Improved.TransactionJourney) : Prop :=
  Improved.attempts j ≠ [] ∧
  Improved.pspsInvolved j = newSet (Improved.pspName <$> Improved.attempts j) ∧
  Improved.totalAttempts j = length (Improved.attempts j) ∧
  (Improved.finalStatus j = Improved.success ↔
   existsb Improved.isApproving (Improved.attempts j) = true).

(** The counters of a PSP before the unique counting. *)
Definition attemptCounted (s : Improved.PSPStats) : Prop :=
  Improved.approvedAttempts s + Improved.declinedAttempts s
    ≤ Improved.psTotalAttempts s ∧
  Improved.uniqueApproved s = 0 ∧ Improved.uniqueDeclined s = 0.

End Inv.

Module Aux.

(** [a] more unique approvals and [d] more unique declines. *)
Definition addUnique (a d : nat) (s : Improved.PSPStats) : Improved.PSPStats :=
  {| Improved.psTotalAttempts := Improved.psTotalAttempts s;
     Improved.approvedAttempts := Improved.approvedAttempts s;
     Improved.declinedAttempts := Improved.declinedAttempts s;
     Improved.uniqueApproved := Improved.uniqueApproved s + a;
     Improved.uniqueDeclined := Improved.uniqueDeclined s + d;
     Improved.individualApprovalRate := Improved.individualApprovalRate s;
     Improved.trueApprovalRate := Improved.trueApprovalRate s;
     Improved.avgPosition := Improved.avgPosition s |}.

Definition b2n (b : bool) : nat := if b then 1 else 0.

(** The journeys that a non-empty exclusion list leaves to count: kept by
    the filter, and with an attempt of a PSP that is not excluded. *)
Definition remains (E : list string) (j : Improved.TransactionJourney) : bool :=
  existsb (fun psp => negb (Improved.excluded E psp)) (Improved.pspsInvolved j)
  && Improved.nonExcludedPSPInvolved E j.

End Aux.

Module RatioInv.

(** Statistics of [analyzeData] whose ratios still hold their initial 0. *)
Definition unrated (s : Analyzer.PSPStats) : Prop :=
  Analyzer.approvalRatio s = 0%Q ∧ Analyzer.declineRatio s = 0%Q.


End RatioInv.

(** ** Sample inputs *)

Module Examples.

(** A host in UTC whose clock reads the index of the transaction. *)
Definition host : Host :=
  {| dateNow := fun i => Z.of_nat i;
     dateParse := fun _ => None;
     tzOffset := 0;
     localeCompare := fun a b =>
       match String.compare a b with Lt => (-1)%Z | Eq => 0%Z | Gt => 1%Z end |}.

(** One attempt of order [order] at PSP [psp] with status [st]. *)
Definition tx (order psp st : string) : Transaction :=
  {| Tx.transactionId := None;
     Tx.merchantOrderId := Some order;
     Tx.pspName := Some psp;
     Tx.country := Some "DE";
     Tx.status := Some st;
     Tx.merchantAmount := None;
     Tx.currency := None;
     Tx.processing_date := None |}.

(** The same attempt with a processing date. *)
Definition txAt (order psp st : string) (t : Z) : Transaction :=
  {| Tx.transactionId := None;
     Tx.merchantOrderId := Some order;
     Tx.pspName := Some psp;
     Tx.country := Some "DE";
     Tx.status := Some st;
     Tx.merchantAmount := None;
     Tx.currency := None;
     Tx.processing_date := Some (DateObject (Some t)) |}.

(** Order 1 is declined by A and approved by B; order 2 is approved by A. *)
Definition rescued : list Transaction :=
  [tx "1" "A" "declined"; tx "1" "B" "approved"; tx "2" "A" "approved"].

(** An attempt that is neither approved nor declined. *)
Definition inProcess : list Transaction :=
  [tx "7" "SafeCharge" "credit_card_in_process"].


(** 0050-06-18T00:00:00Z, a day of the year 50. *)
Definition inYear50 : Z := (-60574780800000)%Z.

(** 2024-12-31T00:00:00Z. *)
Definition endOf2024 : Z := 1735603200000%Z.

(** One approved order, processed in the year 50. *)
Definition ancient : list Transaction := [txAt "9" "A" "approved" inYear50].

End Examples.

From stdpp Require Import sorting.

(** ** Further quantities read off the input

    What the additional properties below count over the transactions and
    the journeys. *)

Module Input.

(** The transactions of order [k], in the order of the input. *)
Definition txsOf (k : string) (txs : list Transaction) : list Transaction :=
  List.filter (fun tx => bool_decide (orderIdOf tx = k)) txs.

(** What the outcome counts read of a transaction: its PSP and its status. *)
Definition txSummary (tx : Transaction) : string * string :=
  (pspNameOf tx, statusOf tx).

(** The same pair of an attempt of [improvedAnalyzeData]. *)
Definition attemptSummary (a : Improved.Attempt) : string * string :=
  (Improved.pspName a, Improved.status a).

(** The fields of a journey that its first transaction decides. *)
Definition seedOf (j : Improved.TransactionJourney)
  : string * string * string * JSDate :=
  (Improved.transactionId j, Improved.merchantOrderId j, Improved.country j,
   Improved.date j).

(** The journey of order [k] while the first pass reads [txs] from index
    [i], starting from [cur]. *)
Fixpoint orderFold (H : Host) (k : string) (i : nat) (txs : list Transaction)
    (cur : option Improved.TransactionJourney)
  : option Improved.TransactionJourney :=
  match txs with
  | [] => cur
  | tx :: rest =>
      orderFold H k (S i) rest
        (if bool_decide (orderIdOf tx = k)
         then Some (Improved.pushAttempt
                      (Improved.newAttempt (Improved.dateOf H i tx) tx)
                      (default (Improved.newJourney k (Improved.dateOf H i tx) tx)
                               cur))
         else cur)
  end.

(** The time of an attempt whose timestamp is a valid date. *)
Definition timeOf (a : Improved.Attempt) : option Z :=
  match Improved.timestamp a with
  | Some (Some t) => Some t
  | _ => None
  end.

(** Attempt [a] is not later than attempt [b], both with a valid time. *)
Definition notLater (a b : Improved.Attempt) : Prop :=
  match timeOf a, timeOf b with
  | Some ta, Some tb => (ta <= tb)%Z
  | _, _ => False
  end.

End Input.

(** ** What a recalculation counts *)

Module Recount.

(** Journey [j] counts as approved under the exclusion list [E]: the
    filter keeps it and a PSP that is not excluded approved it. *)
Definition approvedUnder (E : list string) (j : Improved.TransactionJourney)
  : bool :=
  existsb (fun psp => negb (Improved.excluded E psp)) (Improved.pspsInvolved j)
  && Improved.approvedByNonExcludedPSP E j.

(** Journey [j] counts as declined under [E]: the filter keeps it, no PSP
    that is not excluded approved it, and one was involved. *)
Definition declinedUnder (E : list string) (j : Improved.TransactionJourney)
  : bool :=
  existsb (fun psp => negb (Improved.excluded E psp)) (Improved.pspsInvolved j)
  && (negb (Improved.approvedByNonExcludedPSP E j)
      && Improved.nonExcludedPSPInvolved E j).

End Recount.

(** ** What [analyzeData] counts *)

Module AnalyzerSpec.

(** PSP [P] is involved in journey [j] of [analyzeData]. *)
Definition involves (P : string) (j : Analyzer.Journey) : bool :=
  bool_decide (P ∈ Analyzer.pspsInvolved j).

(** The number of journeys that involve [P]. *)
Definition journeysInvolving (P : string) (js : list Analyzer.Journey) : nat :=
  countIf (involves P) js.

(** The number of journeys that involve [P] and that [P] approved. *)
Definition journeysApprovedBy (P : string) (js : list Analyzer.Journey) : nat :=
  countIf (fun j => involves P j && Analyzer.pspApprovedThisJourney j P) js.

(** The number of journeys that involve [P] and that [P] did not approve. *)
Definition journeysDeclinedBy (P : string) (js : list Analyzer.Journey) : nat :=
  countIf (fun j => involves P j && negb (Analyzer.pspApprovedThisJourney j P))
          js.

(** The PSP and status of an attempt of [analyzeData]. *)
Definition attemptSummary (a : Analyzer.Attempt) : string * string :=
  (Analyzer.pspName a, Analyzer.status a).

(** [a] more approved and [d] more declined journeys. *)
Definition addCounts (a d : nat) (s : Analyzer.PSPStats) : Analyzer.PSPStats :=
  {| Analyzer.total := Analyzer.total s + a + d;
     Analyzer.approved := Analyzer.approved s + a;
     Analyzer.declined := Analyzer.declined s + d;
     Analyzer.filtered := Analyzer.filtered s;
     Analyzer.other := Analyzer.other s;
     Analyzer.approvalRatio := Analyzer.approvalRatio s;
     Analyzer.declineRatio := Analyzer.declineRatio s |}.

(** The PSP statistics through one round of the loop over the PSPs of
    journey [j]. *)
Definition pspStep (j : Analyzer.Journey) (m : gmap string Analyzer.PSPStats)
    (name : string) : gmap string Analyzer.PSPStats :=
  alter (Analyzer.bump (Analyzer.pspApprovedThisJourney j name)) name
        (Analyzer.ensure name Analyzer.zeroStats m).

(** Some pair of the list has PSP [P]. *)
Definition listInvolves (P : string) (l : list (string * string)) : bool :=
  existsb (fun x => bool_decide (x.1 = P)) l.

(** Some pair of the list has PSP [P] and an approving status. *)
Definition listApproved (P : string) (l : list (string * string)) : bool :=
  existsb (fun x => bool_decide (x.1 = P) && isApprovedStatus x.2) l.

End AnalyzerSpec.

(** ** Further sample inputs *)

Module Samples.

(** Order 5: A declines at time 2000, B approved at time 1000; the input
    lists the later attempt first. *)
Definition outOfOrder : list Transaction :=
  [Examples.txAt "5" "A" "declined" 2000; Examples.txAt "5" "B" "approved" 1000].

End Samples.

(** * Properties *)

(** ** Sets, sorting and sums *)

Section ListFacts.

Lemma setAdd_elem (s : list string) (x y : string) :
  y ∈ setAdd s x ↔ y ∈ s ∨ y = x.
Proof.
  unfold setAdd. case_bool_decide as Hx.
  - split; [auto | intros [?| ->]; done].
  - rewrite elem_of_app, list_elem_of_singleton. done.
Qed.

Lemma setAdd_NoDup (s : list string) (x : string) :
  NoDup s → NoDup (setAdd s x).
Proof.
  intros Hs. unfold setAdd. case_bool_decide as Hx; [done|].
  apply NoDup_app. split_and!; [done | | apply NoDup_singleton].
  intros y Hy ->%list_elem_of_singleton. done.
Qed.

Lemma foldl_setAdd_elem (l s : list string) (y : string) :
  y ∈ foldl setAdd s l ↔ y ∈ s ∨ y ∈ l.
Proof.
  revert s. induction l as [|x l IH]; intros s; simpl.
  - rewrite elem_of_nil. tauto.
  - rewrite IH, setAdd_elem, elem_of_cons. tauto.
Qed.

Lemma foldl_setAdd_NoDup (l s : list string) :
  NoDup s → NoDup (foldl setAdd s l).
Proof.
  revert s. induction l as [|x l IH]; intros s Hs; simpl; [done|].
  apply IH, setAdd_NoDup, Hs.
Qed.

Lemma newSet_elem (l : list string) (y : string) : y ∈ newSet l ↔ y ∈ l.
Proof.
  unfold newSet. rewrite foldl_setAdd_elem, elem_of_nil. tauto.
Qed.

Lemma newSet_NoDup (l : list string) : NoDup (newSet l).
Proof. apply foldl_setAdd_NoDup, NoDup_nil_2. Qed.

Lemma foldl_setAdd_fmap {A} (f : A → string) (l : list A) (s : list string) :
  foldl (fun s a => setAdd s (f a)) s l = foldl setAdd s (f <$> l).
Proof. revert s. induction l as [|a l IH]; intros s; simpl; [done | apply IH]. Qed.

Lemma sortInsert_perm {A} (cmp : A → A → Z) (x : A) (l : list A) :
  sortInsert cmp x l ≡ₚ x :: l.
Proof.
  induction l as [|y l IH]; simpl; [done|].
  destruct (cmp x y <=? 0)%Z; [done|].
  rewrite IH. apply perm_swap.
Qed.

Lemma arraySort_perm {A} (cmp : A → A → Z) (l : list A) :
  arraySort cmp l ≡ₚ l.
Proof.
  unfold arraySort. induction l as [|x l IH]; simpl; [done|].
  rewrite sortInsert_perm. by f_equiv.
Qed.

Lemma foldl_add_sum_list {A} (f : A → nat) (l : list A) (n : nat) :
  foldl (fun sum x => sum + f x) n l = n + sum_list (f <$> l).
Proof.
  revert n. induction l as [|x l IH]; intros n; csimpl; [lia|].
  rewrite IH. lia.
Qed.

Lemma countIf_sum_list {A} (p : A → bool) (l : list A) :
  countIf p l = sum_list ((fun x => if p x then 1 else 0) <$> l).
Proof.
  unfold countIf. induction l as [|x l IH]; csimpl; [done|].
  destruct (p x); csimpl; lia.
Qed.

Lemma countIf_split {A} (p : A → bool) (l : list A) :
  countIf p l + countIf (fun x => negb (p x)) l = length l.
Proof.
  unfold countIf. induction l as [|x l IH]; simpl; [done|].
  destruct (p x); simpl; lia.
Qed.

Lemma countIf_le {A} (p : A → bool) (l : list A) : countIf p l ≤ length l.
Proof. pose proof (countIf_split p l). lia. Qed.

Lemma existsb_elem {A} (p : A → bool) (l : list A) :
  existsb p l = true ↔ ∃ x, x ∈ l ∧ p x = true.
Proof.
  rewrite existsb_exists. by setoid_rewrite list_elem_of_In.
Qed.

Lemma existsb_perm {A} (p : A → bool) (l l' : list A) :
  l ≡ₚ l' → existsb p l = existsb p l'.
Proof.
  intros Hp. apply eq_true_iff_eq. rewrite !existsb_elem.
  by setoid_rewrite Hp.
Qed.

Lemma find_existsb {A} (p : A → bool) (l : list A) :
  is_Some (List.find p l) ↔ existsb p l = true.
Proof.
  induction l as [|x l IH]; simpl.
  - split; [intros [? [=]] | done].
  - destruct (p x); simpl; [|done]. split; eauto.
Qed.

End ListFacts.

(** ** Dictionaries *)

Section MapFacts.

Context {V : Type}.

Lemma elem_of_objectValues (m : gmap string V) (v : V) :
  v ∈ objectValues m ↔ ∃ k, m !! k = Some v.
Proof.
  unfold objectValues. rewrite list_elem_of_fmap. split.
  - intros [[k v'] [-> Hkv]]. exists k. by apply elem_of_map_to_list.
  - intros [k Hk]. exists (k, v). split; [done|]. by apply elem_of_map_to_list.
Qed.

Lemma objectValues_empty : objectValues (∅ : gmap string V) = [].
Proof. unfold objectValues. by rewrite map_to_list_empty. Qed.

Lemma objectValues_insert (m : gmap string V) (k : string) (v : V) :
  m !! k = None → objectValues (<[k := v]> m) ≡ₚ v :: objectValues m.
Proof.
  intros Hk. unfold objectValues. by rewrite map_to_list_insert.
Qed.

Lemma objectValues_delete (m : gmap string V) (k : string) (v : V) :
  m !! k = Some v → objectValues m ≡ₚ v :: objectValues (delete k m).
Proof.
  intros Hk. rewrite <- (insert_delete_id m k v) at 1 by done.
  apply objectValues_insert, lookup_delete_eq.
Qed.


Lemma objectValues_length (m : gmap string V) :
  length (objectValues m) = size m.
Proof.
  unfold objectValues. by rewrite length_fmap, length_map_to_list.
Qed.

End MapFacts.

Lemma objectValues_fmap {A B} (f : A → B) (m : gmap string A) :
  objectValues (f <$> m) ≡ₚ f <$> objectValues m.
Proof.
  unfold objectValues. rewrite map_to_list_fmap, <- !list_fmap_compose.
  done.
Qed.

(** ** The journeys of [improvedAnalyzeData] *)

Module ImprovedFacts.

Import Improved.

Lemma addTransaction_lookup H m i tx key :
  addTransaction H m i tx !! key =
    if decide (orderIdOf tx = key)
    then Some (pushAttempt (newAttempt (dateOf H i tx) tx)
                 (default (newJourney (orderIdOf tx) (dateOf H i tx) tx)
                          (m !! orderIdOf tx)))
    else m !! key.
Proof.
  unfold addTransaction. case_decide as Hk.
  - subst key. rewrite lookup_alter_eq.
    destruct (m !! orderIdOf tx) as [j|] eqn:Hj; simpl.
    + by rewrite Hj.
    + by rewrite lookup_insert_eq.
  - rewrite lookup_alter_ne by done.
    destruct (m !! orderIdOf tx); [done|]. by rewrite lookup_insert_ne.
Qed.

Lemma groupFrom_nonempty H txs i m :
  map_Forall (fun _ j => attempts j ≠ []) m →
  map_Forall (fun _ j => attempts j ≠ []) (groupFrom H i txs m).
Proof.
  revert i m. induction txs as [|tx txs IH]; intros i m Hm; simpl; [done|].
  apply IH. intros key j. rewrite addTransaction_lookup.
  case_decide; [|apply Hm].
  intros [= <-]. simpl. by destruct (attempts _).
Qed.

Lemma sortAttempts_perm l : sortAttempts l ≡ₚ l.
Proof.
  unfold sortAttempts. destruct (existsb _ _); [apply arraySort_perm | done].
Qed.

Lemma finalize_improvedJourney j :
  attempts j ≠ [] → Inv.improvedJourney (finalize j).
Proof.
  intros Hne. unfold Inv.improvedJourney, finalize; simpl. split_and!.
  - intros Himap. apply (f_equal length) in Himap.
    rewrite length_imap, (Permutation_length (sortAttempts_perm _)) in Himap.
    by destruct (attempts j).
  - done.
  - done.
  - rewrite <- find_existsb.
    destruct (List.find _ _); split; (done || eauto || by intros [? [=]]).
Qed.

Lemma buildJourneys_improvedJourney H txs :
  map_Forall (fun _ j => Inv.improvedJourney j) (buildJourneys H txs).
Proof.
  unfold buildJourneys. intros key j. rewrite lookup_fmap.
  destruct (groupFrom H 0 txs ∅ !! key) as [j0|] eqn:Hj0; [|done].
  intros [= <-]. apply finalize_improvedJourney.
  eapply (groupFrom_nonempty H txs 0 ∅); [|exact Hj0].
  intros ? ?. by rewrite lookup_empty.
Qed.

Lemma journeyArray_improvedJourney H txs j :
  j ∈ objectValues (buildJourneys H txs) → Inv.improvedJourney j.
Proof.
  intros [key Hkey]%elem_of_objectValues.
  by eapply buildJourneys_improvedJourney.
Qed.

Lemma pspsInJourney_newSet j :
  pspsInJourney j = newSet (pspName <$> attempts j).
Proof. unfold pspsInJourney, newSet. apply foldl_setAdd_fmap. Qed.

End ImprovedFacts.

(** ** The PSP statistics of [improvedAnalyzeData] *)

Module StatsFacts.

Import Improved Aux.

Lemma foldl_nested {A B S} (f : S → B → S) (g : A → list B) (l : list A) (s : S) :
  foldl (fun s a => foldl f s (g a)) s l = foldl f s (l ≫= g).
Proof.
  revert s. induction l as [|a l IH]; intros s; csimpl; [done|].
  by rewrite foldl_app, IH.
Qed.

Lemma countIf_ext {A} (p q : A → bool) (l : list A) :
  (∀ x, x ∈ l → p x = q x) → countIf p l = countIf q l.
Proof.
  intros Hpq. rewrite !countIf_sum_list. f_equal.
  apply list_fmap_ext. intros i x Hx.
  rewrite Hpq; [done|]. by eapply list_elem_of_lookup_2.
Qed.

Lemma countIf_cons {A} (p : A → bool) (x : A) (l : list A) :
  countIf p (x :: l) = b2n (p x) + countIf p l.
Proof. unfold countIf. simpl. by destruct (p x). Qed.

(** *** The initialisation *)

Lemma initStats_lookup (st : gmap string PSPStats) a P :
  initStats st a !! P =
    match st !! P with
    | Some s => Some s
    | None => if decide (pspName a = P) then Some zeroStats else None
    end.
Proof.
  unfold initStats. destruct (decide (pspName a = P)) as [->|Hne].
  - destruct (st !! P) eqn:HP; [done|]. by rewrite lookup_insert_eq.
  - destruct (st !! pspName a); [by destruct (st !! P)|].
    rewrite lookup_insert_ne by done. by destruct (st !! P).
Qed.

Lemma init_lookup (l : list Attempt) (st : gmap string PSPStats) P :
  foldl initStats st l !! P =
    match st !! P with
    | Some s => Some s
    | None => if bool_decide (P ∈ pspName <$> l) then Some zeroStats else None
    end.
Proof.
  revert st. induction l as [|a l IH]; intros st; csimpl.
  - by destruct (st !! P).
  - rewrite IH, initStats_lookup. destruct (st !! P); [done|].
    destruct (decide (pspName a = P)) as [<-|Hne].
    + rewrite bool_decide_eq_true_2; [done | by left].
    + apply (f_equal (fun b : bool => if b then Some zeroStats else None)).
      apply bool_decide_ext. rewrite elem_of_cons.
      split; [auto | by intros [->|?]].
Qed.

(** *** Loops that alter one entry at a time *)

Section AlterLoop.

Context {B : Type} (f : B → PSPStats → PSPStats) (key : B → string).

Lemma alterLoop_is_Some (l : list B) (st : gmap string PSPStats) P :
  is_Some (foldl (fun st b => alter (f b) (key b) st) st l !! P)
  ↔ is_Some (st !! P).
Proof.
  revert st. induction l as [|b l IH]; intros st; simpl; [done|].
  rewrite IH. destruct (decide (key b = P)) as [->|Hne].
  - rewrite lookup_alter_eq. apply fmap_is_Some.
  - by rewrite lookup_alter_ne.
Qed.

Lemma alterLoop_Forall (Q : PSPStats → Prop) (l : list B)
    (st : gmap string PSPStats) :
  (∀ b s, Q s → Q (f b s)) →
  map_Forall (fun _ => Q) st →
  map_Forall (fun _ => Q) (foldl (fun st b => alter (f b) (key b) st) st l).
Proof.
  intros Hf. revert st. induction l as [|b l IH]; intros st Hst; simpl; [done|].
  apply IH. intros P s. destruct (decide (key b = P)) as [->|Hne].
  - rewrite lookup_alter_eq. destruct (st !! P) as [s0|] eqn:HP; [|done].
    intros [= <-]. apply Hf. by eapply Hst.
  - rewrite lookup_alter_ne by done. apply Hst.
Qed.

End AlterLoop.

(** *** The unique counting *)

Lemma addUnique_0 s : addUnique 0 0 s = s.
Proof. destruct s. unfold addUnique; simpl. f_equal; lia. Qed.

Lemma bumpUnique_addUnique b a d s :
  addUnique a d (bumpUnique b s) = addUnique (b2n b + a) (b2n (negb b) + d) s.
Proof. destruct s, b; unfold addUnique, bumpUnique; simpl; f_equal; lia. Qed.

Lemma countUnique_lookup j (st : gmap string PSPStats) n P :
  countUnique j st n !! P =
    if decide (n = P)
    then bumpUnique (pspApprovedThisJourney j P) <$> st !! P
    else st !! P.
Proof.
  unfold countUnique. case_decide as Hn.
  - subst n. apply lookup_alter_eq.
  - by apply lookup_alter_ne.
Qed.

Lemma countUnique_loop j (names : list string) (st : gmap string PSPStats) P :
  NoDup names →
  foldl (countUnique j) st names !! P =
    (if bool_decide (P ∈ names)
     then bumpUnique (pspApprovedThisJourney j P) <$> st !! P
     else st !! P).
Proof.
  revert st. induction names as [|n names IH]; intros st Hnd; simpl; [done|].
  apply NoDup_cons in Hnd as [Hn Hnd]. rewrite IH by done.
  rewrite countUnique_lookup. destruct (decide (n = P)) as [->|Hne].
  - rewrite bool_decide_eq_false_2 by done.
    rewrite bool_decide_eq_true_2; [done | by left].
  - destruct (decide (P ∈ names)) as [Hin|Hnin].
    + rewrite !bool_decide_eq_true_2; [done | by right | done].
    + rewrite !bool_decide_eq_false_2; [done| |done].
      intros [->|?]%elem_of_cons; done.
Qed.

(** The journeys counted for PSP [P] by the unique counting loop. *)
Lemma countJourney_loop (js : list TransactionJourney)
    (st : gmap string PSPStats) P :
  foldl countJourney st js !! P =
    addUnique
      (countIf (fun j => bool_decide (P ∈ pspsInJourney j)
                         && pspApprovedThisJourney j P) js)
      (countIf (fun j => bool_decide (P ∈ pspsInJourney j)
                         && negb (pspApprovedThisJourney j P)) js)
    <$> st !! P.
Proof.
  revert st. induction js as [|j js IH]; intros st; simpl.
  - destruct (st !! P); simpl; [|done]. by rewrite addUnique_0.
  - rewrite IH. unfold countJourney.
    rewrite countUnique_loop
      by (rewrite ImprovedFacts.pspsInJourney_newSet; apply newSet_NoDup).
    rewrite !countIf_cons.
    destruct (bool_decide (P ∈ pspsInJourney j)); simpl.
    + destruct (st !! P); simpl; [|done]. f_equal.
      rewrite bumpUnique_addUnique. f_equal; lia.
    + done.
Qed.

End StatsFacts.

Module PspStatsFacts.

Import Improved Aux StatsFacts.

Lemma zeroStats_attemptCounted : Inv.attemptCounted zeroStats.
Proof. unfold Inv.attemptCounted; simpl. lia. Qed.

Lemma bumpAttempt_attemptCounted st s :
  Inv.attemptCounted s → Inv.attemptCounted (bumpAttempt st s).
Proof.
  unfold Inv.attemptCounted, bumpAttempt; simpl. intros (? & ? & ?).
  destruct (isApprovedStatus st), (isDeclinedStatus st); lia.
Qed.

(** The statistics before the unique counting. *)
Lemma attemptLoops_spec (js : list TransactionJourney) :
  let stats0 := foldl (fun st j => foldl initStats st (attempts j)) ∅ js in
  let stats1 := foldl (fun st j => foldl countAttempt st (attempts j)) stats0 js in
  map_Forall (fun _ => Inv.attemptCounted) stats1 ∧
  ∀ P, is_Some (stats1 !! P) ↔ P ∈ pspName <$> (js ≫= attempts).
Proof.
  intros stats0 stats1. unfold stats1, stats0. rewrite !foldl_nested.
  split.
  - apply (alterLoop_Forall (fun a => bumpAttempt (status a)) pspName).
    + intros a s. apply bumpAttempt_attemptCounted.
    + intros P s. rewrite init_lookup, lookup_empty.
      case_bool_decide; [|done]. intros [= <-]. apply zeroStats_attemptCounted.
  - intros P.
    rewrite (alterLoop_is_Some (fun a => bumpAttempt (status a)) pspName).
    rewrite init_lookup, lookup_empty.
    case_bool_decide as HP; split; (done || eauto || by intros [? [=]]).
Qed.

Lemma computePspStats_lookup R (js : list TransactionJourney) P s :
  computePspStats R js !! P = Some s →
  ∃ s1, Inv.attemptCounted s1 ∧
        s = withRates R js P
              (addUnique
                 (countIf (fun j => bool_decide (P ∈ pspsInJourney j)
                                    && pspApprovedThisJourney j P) js)
                 (countIf (fun j => bool_decide (P ∈ pspsInJourney j)
                                    && negb (pspApprovedThisJourney j P)) js)
                 s1).
Proof.
  unfold computePspStats. rewrite map_lookup_imap, countJourney_loop.
  destruct (attemptLoops_spec js) as [Hall _].
  destruct (foldl _ (foldl _ ∅ js) js !! P) as [s1|] eqn:Hs1; [|done].
  simpl. intros [= <-]. exists s1. split; [|done]. by eapply Hall.
Qed.

Lemma computePspStats_is_Some R (js : list TransactionJourney) P :
  is_Some (computePspStats R js !! P) ↔ P ∈ pspName <$> (js ≫= attempts).
Proof.
  unfold computePspStats. rewrite map_lookup_imap, countJourney_loop.
  destruct (attemptLoops_spec js) as [_ Hkeys]. rewrite <- Hkeys.
  destruct (foldl _ (foldl _ ∅ js) js !! P) as [s1|]; simpl.
  - split; eauto.
  - split; by intros [? [=]].
Qed.

Lemma involves_pspsInJourney j P :
  Inv.improvedJourney j →
  Spec.involves P j = bool_decide (P ∈ pspsInJourney j).
Proof.
  intros (_ & Hpsps & _). unfold Spec.involves.
  by rewrite Hpsps, ImprovedFacts.pspsInJourney_newSet.
Qed.

Lemma involved_attempt (js : list TransactionJourney) P :
  (∀ j, j ∈ js → Inv.improvedJourney j) →
  0 < Spec.journeysInvolving P js → P ∈ pspName <$> (js ≫= attempts).
Proof.
  intros Hwf. induction js as [|j js IH]; [by cbv; lia|].
  unfold Spec.journeysInvolving. rewrite countIf_cons. csimpl.
  rewrite fmap_app, elem_of_app. intros Hpos.
  destruct (Spec.involves P j) eqn:Hinv.
  - left. unfold Spec.involves in Hinv. apply bool_decide_eq_true in Hinv.
    destruct (Hwf j) as (_ & Hpsps & _); [by left|].
    by rewrite Hpsps, newSet_elem in Hinv.
  - right. apply IH; [|done]. intros j' Hj'. apply Hwf. by right.
Qed.

Lemma countIf_and_split {A} (p q : A → bool) (l : list A) :
  countIf (fun x => p x && q x) l + countIf (fun x => p x && negb (q x)) l
  = countIf p l.
Proof.
  induction l as [|x l IH]; [done|]. rewrite !countIf_cons.
  destruct (p x), (q x); simpl; lia.
Qed.

End PspStatsFacts.

(** ** Claims about the unique counting *)

Import Improved.





(** ** Sums over a dictionary *)

Section SumFacts.

Context {V : Type} (f : V → nat).

Lemma sum_values_insert (m : gmap string V) (k : string) (v : V) :
  sum_list (f <$> objectValues (<[k := v]> m)) + from_option f 0 (m !! k)
  = sum_list (f <$> objectValues m) + f v.
Proof.
  destruct (m !! k) as [v0|] eqn:Hk; simpl.
  - rewrite <- insert_delete_eq.
    rewrite (objectValues_insert (delete k m) k v) by apply lookup_delete_eq.
    rewrite (objectValues_delete m k v0) by done. csimpl. lia.
  - rewrite (objectValues_insert m k v) by done. csimpl. lia.
Qed.


Lemma sum_values_zero (m : gmap string V) :
  map_Forall (fun _ v => f v = 0) m → sum_list (f <$> objectValues m) = 0.
Proof.
  intros Hm.
  assert (Hall : ∀ v, v ∈ objectValues m → f v = 0).
  { intros v [k Hk]%elem_of_objectValues. by eapply Hm. }
  induction (objectValues m) as [|v l IH]; csimpl; [done|].
  rewrite (Hall v) by (by left). rewrite IH; [done|].
  intros v' Hv'. apply Hall. by right.
Qed.

End SumFacts.


Lemma sum_list_fmap_le {A} (f g : A → nat) (l : list A) :
  (∀ x, x ∈ l → f x ≤ g x) → sum_list (f <$> l) ≤ sum_list (g <$> l).
Proof.
  induction l as [|x l IH]; intros Hfg; csimpl; [done|].
  pose proof (Hfg x ltac:(by left)).
  enough (sum_list (f <$> l) ≤ sum_list (g <$> l)) by lia.
  apply IH. intros y Hy. apply Hfg. by right.
Qed.


Lemma sum_list_fmap_ext {A} (f g : A → nat) (l : list A) :
  (∀ x, x ∈ l → f x = g x) → sum_list (f <$> l) = sum_list (g <$> l).
Proof.
  intros Hfg. f_equal. apply list_fmap_ext. intros i x Hx.
  apply Hfg. by eapply list_elem_of_lookup_2.
Qed.


Lemma countIf_pos {A} (p : A → bool) (l : list A) (x : A) :
  x ∈ l → p x = true → 1 ≤ countIf p l.
Proof.
  intros Hx Hp. rewrite countIf_sum_list.
  induction l as [|y l IH]; [by apply elem_of_nil in Hx|].
  csimpl. apply elem_of_cons in Hx as [<-|Hx]; [rewrite Hp; lia|].
  specialize (IH Hx). lia.
Qed.

(** ** The totals of [improvedAnalyzeData] *)

Module TotalsFacts.

Import Improved Aux StatsFacts.

Section UniqueSums.

(** A counter [f] of the statistics that [bumpUnique b] raises by [w b]. *)
Context (f : PSPStats → nat) (w : bool → nat).
Context (Hbump : ∀ b s, f (bumpUnique b s) = f s + w b).






End UniqueSums.






(** *** Grouping by country *)

Lemma groupByCountry_sum (h : TransactionJourney → nat)
    (js : list TransactionJourney) :
  sum_list ((fun g => sum_list (h <$> g)) <$> objectValues (groupByCountry js))
  = sum_list (h <$> js).
Proof.
  unfold groupByCountry.
  enough (Hgen : ∀ m : gmap string (list TransactionJourney),
    sum_list ((fun g => sum_list (h <$> g)) <$> objectValues
      (foldl (fun m j => <[country j := default [] (m !! country j) ++ [j]]> m)
             m js))
    = sum_list ((fun g => sum_list (h <$> g)) <$> objectValues m)
      + sum_list (h <$> js)).
  { rewrite Hgen, objectValues_empty. done. }
  induction js as [|j js IH]; intros m; csimpl; [lia|].
  rewrite IH.
  pose proof (sum_values_insert (fun g => sum_list (h <$> g)) m (country j)
                (default [] (m !! country j) ++ [j])) as Hins.
  cbv beta in Hins. rewrite fmap_app, sum_list_with_app in Hins.
  csimpl in Hins.
  destruct (m !! country j); simpl in *; lia.
Qed.

Lemma countryTotals_sum R (p : TransactionJourney → bool)
    (proj : CountryBreakdown → nat) (js : list TransactionJourney) :
  (∀ g, proj (countryMetrics R g) = countIf p g) →
  sumOf proj (objectValues (countryMetrics R <$> groupByCountry js))
  = countIf p js.
Proof.
  intros Hproj. unfold sumOf. rewrite foldl_add_sum_list. simpl.
  rewrite objectValues_fmap, <- list_fmap_compose.
  rewrite (countIf_sum_list p js), <- groupByCountry_sum.
  apply sum_list_fmap_ext. intros g _. simpl.
  by rewrite Hproj, countIf_sum_list.
Qed.

Lemma isFailed_negb s : isFailed s = negb (isSuccess s).
Proof. by destruct s. Qed.

(** The two totals of the transaction level. *)
Lemma transactionLevel_totals H R txs :
  let r := improvedAnalyzeData H R txs in
  let js := objectValues (transactionJourneys r) in
  totalApprovedTransactions (transactionLevelMetrics r)
    = countIf (fun j => isSuccess (finalStatus j)) js ∧
  totalUniqueDeclinedTransactions (transactionLevelMetrics r)
    = countIf (fun j => isFailed (finalStatus j)) js ∧
  totalProcessedTransactions (transactionLevelMetrics r) = length js.
Proof.
  intros r js. simpl.
  rewrite (countryTotals_sum R (fun j => isSuccess (finalStatus j))) by done.
  rewrite (countryTotals_sum R (fun j => isFailed (finalStatus j))) by done.
  split_and!; [done | done |].
  rewrite <- (countIf_split (fun j => isSuccess (finalStatus j)) js).
  f_equal. apply countIf_ext. intros j _. apply isFailed_negb.
Qed.


End TotalsFacts.

(** ** Claims about the totals *)

Module ClaimFacts.

Import Improved Aux StatsFacts.



(** *** The recalculation *)

Lemma recount_sum E (l : list TransactionJourney) (acc : nat * nat) :
  (foldl (recount E) acc l).1 + (foldl (recount E) acc l).2
  = acc.1 + acc.2 + countIf (nonExcludedPSPInvolved E) l.
Proof.
  revert acc. induction l as [|j l IH]; intros acc; [cbn; lia|].
  rewrite countIf_cons. cbn [foldl]. rewrite IH. unfold recount.
  destruct (approvedByNonExcludedPSP E j) eqn:Happ.
  - assert (Hinv : nonExcludedPSPInvolved E j = true).
    { apply existsb_elem in Happ as (a & Ha & Hna).
      apply existsb_elem. exists a. split; [done|].
      by apply andb_true_iff in Hna as [? _]. }
    rewrite Hinv. simpl. lia.
  - destruct (nonExcludedPSPInvolved E j); simpl; lia.
Qed.

Lemma countIf_filter {A} (p q : A → bool) (l : list A) :
  countIf p (List.filter q l) = countIf (fun x => q x && p x) l.
Proof.
  induction l as [|x l IH]; [done|]. rewrite countIf_cons. simpl.
  destruct (q x); simpl; [by rewrite countIf_cons, IH | done].
Qed.

Lemma countIf_mono {A} (p q : A → bool) (l : list A) :
  (∀ x, p x = true → q x = true) → countIf p l ≤ countIf q l.
Proof.
  intros Hpq. rewrite !countIf_sum_list. apply sum_list_fmap_le.
  intros x _. specialize (Hpq x). destruct (p x), (q x); auto.
  by specialize (Hpq eq_refl).
Qed.

Lemma recalculate_processed R r (E : list string) :
  E ≠ [] →
  totalProcessedTransactions (recalculateWithPSPExclusions R r E)
  = countIf (remains E) (objectValues (transactionJourneys r)).
Proof.
  intros HE. unfold recalculateWithPSPExclusions.
  destruct E as [|p E]; [done|].
  set (E' := p :: E). set (l := List.filter _ _).
  pose proof (recount_sum E' l (0, 0)) as Hsum.
  destruct (foldl (recount E') (0, 0) l) as [a d]. simpl in *.
  rewrite Hsum. unfold l. apply countIf_filter.
Qed.

Lemma remains_mono (E E' : list string) j :
  (∀ x, x ∈ E → x ∈ E') → remains E' j = true → remains E j = true.
Proof.
  intros Hsub. unfold remains, nonExcludedPSPInvolved, excluded.
  rewrite !andb_true_iff, !existsb_elem.
  intros [(n & Hn & Hne) (a & Ha & Hnea)]. split.
  - exists n. split; [done|]. apply negb_true_iff, bool_decide_eq_false.
    apply negb_true_iff, bool_decide_eq_false in Hne. auto.
  - exists a. split; [done|]. apply negb_true_iff, bool_decide_eq_false.
    apply negb_true_iff, bool_decide_eq_false in Hnea. auto.
Qed.

(** Excluding more PSPs never raises the number of processed journeys. *)
Lemma recalculate_mono H R txs (E E' : list string) :
  (∀ x, x ∈ E → x ∈ E') →
  let r := improvedAnalyzeData H R txs in
  totalProcessedTransactions (recalculateWithPSPExclusions R r E')
  ≤ totalProcessedTransactions (recalculateWithPSPExclusions R r E).
Proof.
  intros Hsub r. destruct E' as [|p' E'].
  - destruct E as [|p E]; [done|].
    specialize (Hsub p ltac:(by left)). by apply elem_of_nil in Hsub.
  - rewrite (recalculate_processed R r (p' :: E')) by done.
    destruct E as [|p E].
    + simpl. destruct (TotalsFacts.transactionLevel_totals H R txs)
        as (_ & _ & Htotal).
      simpl in Htotal. rewrite Htotal. apply countIf_le.
    + rewrite (recalculate_processed R r (p :: E)) by done.
      apply countIf_mono. intros j. by apply remains_mono.
Qed.

End ClaimFacts.

(** C2. With an empty exclusion list, [recalculateWithPSPExclusions]
    returns the four fields of [transactionLevelMetrics] unchanged. *)
Theorem exclusion_idempotence (R : Rounding) (r : ImprovedAnalysisResults) :
  let t := recalculateWithPSPExclusions R r [] in
  totalApprovedTransactions t
    = totalApprovedTransactions (transactionLevelMetrics r) ∧
  totalUniqueDeclinedTransactions t
    = totalUniqueDeclinedTransactions (transactionLevelMetrics r) ∧
  totalProcessedTransactions t
    = totalProcessedTransactions (transactionLevelMetrics r) ∧
  weightedSuccessRate t = weightedSuccessRate (transactionLevelMetrics r).
Proof. by cbn. Qed.

(** C3. On a result of [improvedAnalyzeData], adding a PSP [p] to the
    exclusion list [E] (in front or at the end) never raises
    [totalProcessedTransactions], and no exclusion list gives more than the
    [totalProcessedTransactions] of [transactionLevelMetrics]. *)
Theorem exclusion_monotonicity (H : Host) (R : Rounding)
    (txs : list Transaction) (E : list string) (p : string) :
  let r := improvedAnalyzeData H R txs in
  let processed E := totalProcessedTransactions (recalculateWithPSPExclusions R r E) in
  processed (p :: E) ≤ processed E ∧
  processed (E ++ [p]) ≤ processed E ∧
  processed E ≤ totalProcessedTransactions (transactionLevelMetrics r).
Proof.
  intros r processed. split_and!.
  - apply ClaimFacts.recalculate_mono. intros x Hx. by right.
  - apply ClaimFacts.recalculate_mono. intros x Hx. apply elem_of_app. by left.
  - apply (ClaimFacts.recalculate_mono H R txs [] E).
    intros x Hx. by apply elem_of_nil in Hx.
Qed.


(** C9. For every PSP of [pspStats], [approvedAttempts + declinedAttempts]
    is at most [totalAttempts]; an attempt whose status is neither approving
    nor declining raises [totalAttempts] alone, and on the sample
    [Examples.inProcess] the inequality is strict. *)
Theorem attempt_counters_do_not_partition :
  (∀ H R txs P s,
     pspStats (improvedAnalyzeData H R txs) !! P = Some s →
     approvedAttempts s + declinedAttempts s ≤ psTotalAttempts s) ∧
  (∀ st s,
     isApprovedStatus st = false → isDeclinedStatus st = false →
     psTotalAttempts (bumpAttempt st s) = S (psTotalAttempts s) ∧
     approvedAttempts (bumpAttempt st s) = approvedAttempts s ∧
     declinedAttempts (bumpAttempt st s) = declinedAttempts s) ∧
  (∃ s,
     pspStats (improvedAnalyzeData Examples.host exactRounding Examples.inProcess)
       !! "SafeCharge" = Some s ∧
     approvedAttempts s + declinedAttempts s < psTotalAttempts s).
Proof.
  split_and!.
  - intros H R txs P s Hs.
    apply PspStatsFacts.computePspStats_lookup in Hs as (s1 & (Hle & _) & ->).
    exact Hle.
  - intros st s Ha Hd. unfold bumpAttempt; simpl. by rewrite Ha, Hd.
  - eexists. split; [vm_compute; reflexivity|]. simpl. lia.
Qed.

(** C9 on the sample [Examples.rescued], for PSP A. *)
Lemma attempt_counters_do_not_partition_witness :
  let s := default zeroStats
             (pspStats (improvedAnalyzeData Examples.host exactRounding
                          Examples.rescued) !! "A") in
  approvedAttempts s + declinedAttempts s ≤ psTotalAttempts s.
Proof.
  intros s.
  apply (proj1 attempt_counters_do_not_partition
               Examples.host exactRounding Examples.rescued "A").
  vm_compute. reflexivity.
Defined.


(** ** Claims about the journeys *)

Lemma isApprovedStatus_spec (st : string) :
  isApprovedStatus st = true ↔
  includes (toLowerCase st) "approved" = true
  ∨ includes (toLowerCase st) "success" = true.
Proof. unfold isApprovedStatus. apply orb_true_iff. Qed.

Module AnalyzerFacts.

Import Analyzer.

Lemma analyzer_sortAttempts_perm l : sortAttempts l ≡ₚ l.
Proof.
  unfold sortAttempts. destruct (existsb _ _); [apply arraySort_perm | done].
Qed.

Lemma buildJourneys_finalized txs key j :
  buildJourneys txs !! key = Some j → ∃ j0, j = finalize j0.
Proof.
  unfold buildJourneys. rewrite lookup_fmap.
  destruct (foldl addTransaction ∅ txs !! key) as [j0|]; [|done].
  intros [= <-]. eauto.
Qed.

Lemma finalize_finalStatus j0 :
  finalStatus (finalize j0) = success
  ↔ existsb isApproving (attempts (finalize j0)) = true.
Proof. simpl. by destruct (existsb _ _). Qed.

Lemma finalize_pspsInvolved j0 :
  pspsInvolved (finalize j0) = newSet (pspName <$> attempts (finalize j0)).
Proof. done. Qed.

End AnalyzerFacts.

(** C4. In a journey built by [improvedAnalyzeData], and in a journey built
    by [analyzeData], [finalStatus] is [success] exactly when some attempt
    of the journey has a status whose lower-cased text contains "approved"
    or "success", and [failed] exactly when none has. *)
Theorem final_status_any_approving :
  (∀ H R txs key j,
     transactionJourneys (improvedAnalyzeData H R txs) !! key = Some j →
     let approving := ∃ a, a ∈ attempts j ∧
       (includes (toLowerCase (status a)) "approved" = true
        ∨ includes (toLowerCase (status a)) "success" = true) in
     (finalStatus j = success ↔ approving) ∧
     (finalStatus j = failed ↔ ¬ approving)) ∧
  (∀ txs key j,
     Analyzer.buildJourneys txs !! key = Some j →
     let approving := ∃ a, a ∈ Analyzer.attempts j ∧
       (includes (toLowerCase (Analyzer.status a)) "approved" = true
        ∨ includes (toLowerCase (Analyzer.status a)) "success" = true) in
     (Analyzer.finalStatus j = Analyzer.success ↔ approving) ∧
     (Analyzer.finalStatus j = Analyzer.failed ↔ ¬ approving)).
Proof.
  split.
  - intros H R txs key j Hj approving.
    apply ImprovedFacts.buildJourneys_improvedJourney in Hj
      as (_ & _ & _ & Hfinal).
    assert (Hiff : finalStatus j = success ↔ approving).
    { rewrite Hfinal, existsb_elem. unfold approving, isApproving.
      by setoid_rewrite isApprovedStatus_spec. }
    split; [done|]. rewrite <- Hiff. by destruct (finalStatus j).
  - intros txs key j Hj approving.
    apply AnalyzerFacts.buildJourneys_finalized in Hj as [j0 ->].
    assert (Hiff : Analyzer.finalStatus (Analyzer.finalize j0)
                   = Analyzer.success ↔ approving).
    { rewrite AnalyzerFacts.finalize_finalStatus, existsb_elem.
      unfold approving, Analyzer.isApproving.
      by setoid_rewrite isApprovedStatus_spec. }
    split; [done|]. rewrite <- Hiff.
    by destruct (Analyzer.finalStatus (Analyzer.finalize j0)).
Qed.

(** C4 on order 1 of the sample [Examples.rescued]. *)
Lemma final_status_any_approving_witness :
  let j := default (newJourney "" None (Examples.tx "" "" ""))
             (transactionJourneys
                (improvedAnalyzeData Examples.host exactRounding Examples.rescued)
              !! "1") in
  finalStatus j = success ↔
  ∃ a, a ∈ attempts j ∧
       (includes (toLowerCase (status a)) "approved" = true
        ∨ includes (toLowerCase (status a)) "success" = true).
Proof.
  intros j.
  apply (proj1 final_status_any_approving
               Examples.host exactRounding Examples.rescued "1" j).
  vm_compute. reflexivity.
Defined.

(** ** The cross-PSP flows of [analyzeData] *)

Module FlowFacts.

Import Analyzer.






End FlowFacts.




(** ** The weekly key of the time analyzer *)

Module WeekFacts.

Import JsDate TimeAnalyzer.

Local Open Scope Z_scope.

Lemma msPerDay_pos : 0 < msPerDay.
Proof. by cbv. Qed.

Lemma day_of_midnight (d : Z) : day (d * msPerDay) = d.
Proof. unfold day. apply Z.div_mul. by cbv. Qed.

Lemma localTime_utc H (t : Z) : localTime H (utc H t) = t.
Proof. unfold localTime, utc. lia. Qed.

(** The days elapsed since local midnight of January 1 of year [y], as
    [getISOWeek] computes them. *)
Lemma days_since_jan1 H (t y : Z) :
  (t - utc H (dayFromYear y * msPerDay)) / msPerDay
  = day (localTime H t) - dayFromYear y.
Proof.
  unfold utc, localTime, day.
  replace (t - (dayFromYear y * msPerDay - tzOffset H))
    with (t + tzOffset H + - dayFromYear y * msPerDay) by lia.
  rewrite Z.div_add by (by cbv). lia.
Qed.

(** Outside the years 0 to 99, [getISOWeek] is the key of the
    specification. *)
Lemma getISOWeek_weekKey H (t : Z) :
  ¬ (0 <= getFullYear H t <= 99) →
  getISOWeek H (Some t) = Spec.weekKey H t.
Proof.
  intros Hyear. unfold getISOWeek, Spec.weekKey, newDateJan1.
  assert (Hy : makeFullYear (getFullYear H t) = getFullYear H t).
  { unfold makeFullYear.
    destruct (0 <=? getFullYear H t) eqn:H0;
      destruct (getFullYear H t <=? 99) eqn:H99; simpl; try done.
    apply Z.leb_le in H0, H99. lia. }
  rewrite Hy, days_since_jan1. unfold getDay. rewrite localTime_utc.
  done.
Qed.

Lemma pushGroup_lookup key (j : Journey) (groups : gmap string (list Journey)) k :
  pushGroup key j groups !! k =
    if decide (key = k) then Some (default [] (groups !! key) ++ [j])
    else groups !! k.
Proof.
  unfold pushGroup. case_decide as Hk.
  - subst k. apply lookup_insert_eq.
  - by apply lookup_insert_ne.
Qed.

Lemma pushGroup_keeps key (j j' : Journey) (groups : gmap string (list Journey)) k :
  (∃ l, groups !! k = Some l ∧ j' ∈ l) →
  ∃ l, pushGroup key j groups !! k = Some l ∧ j' ∈ l.
Proof.
  intros (l & Hl & Hin). rewrite pushGroup_lookup. case_decide as Hk.
  - subst k. rewrite Hl. eexists. split; [done|]. simpl.
    apply elem_of_app. by left.
  - eauto.
Qed.

Lemma groupJourney_None H (js : list Journey) :
  foldl (groupJourney H) None js = None.
Proof. induction js as [|j js IH]; simpl; [done|]. exact IH. Qed.

(** Every journey is in the weekly group of its [getISOWeek] key. *)
Lemma groupJourneys_weekly H (js : list Journey) (g0 g : Groups) :
  foldl (groupJourney H) (Some g0) js = Some g →
  ∀ j, (j ∈ js ∨ ∃ l, weeklyGroups g0 !! getISOWeek H (date j) = Some l ∧ j ∈ l) →
       ∃ l, weeklyGroups g !! getISOWeek H (date j) = Some l ∧ j ∈ l.
Proof.
  revert g0. induction js as [|j0 js IH]; intros g0; simpl.
  - intros [= <-] j [Hj|Hj]; [by apply elem_of_nil in Hj | done].
  - destruct (dayKeyOf (date j0)) as [dayKey|] eqn:Hday; simpl.
    + intros Hg j Hj. apply (IH _ Hg). simpl.
      destruct Hj as [[->|Hj]%elem_of_cons|Hj].
      * right. rewrite pushGroup_lookup, decide_True by done.
        eexists. split; [done|]. apply elem_of_app. right. by left.
      * by left.
      * right. by apply pushGroup_keeps.
    + by rewrite groupJourney_None.
Qed.

(** In the result of [analyzeTimeData], every journey has a weekly entry
    under its [getISOWeek] key. *)
Lemma weekly_bucket H R txs ta (j : Journey) :
  analyzeTimeData H R txs = Some ta →
  j ∈ objectValues (buildJourneys H (List.filter (isValid H) txs)) →
  List.filter (isValid H) txs ≠ [] →
  ∃ e, e ∈ weekly ta ∧ period e = getISOWeek H (date j).
Proof.
  unfold analyzeTimeData. intros Hta Hj Hne.
  destruct (List.filter (isValid H) txs) as [|v vs] eqn:Hvalid; [done|].
  destruct (groupJourneys H _) as [g|] eqn:Hg; [|done].
  simpl in Hta. injection Hta as <-. simpl.
  destruct (groupJourneys_weekly H _ _ g Hg j (or_introl Hj)) as (l & Hl & _).
  exists {| period := getISOWeek H (date j);
            peMetrics := calculateUniqueMetrics R l |}.
  split; [|done]. unfold periodEntries. rewrite arraySort_perm.
  apply list_elem_of_fmap. exists (getISOWeek H (date j), l).
  split; [done|]. by apply elem_of_map_to_list.
Qed.

(** The key on 2024-12-31 in UTC, a year outside 0 to 99. *)
Lemma getISOWeek_endOf2024 :
  getISOWeek Examples.host (Some Examples.endOf2024) = "2024-W53"%string
  ∧ Spec.weekKey Examples.host Examples.endOf2024 = "2024-W53"%string.
Proof. by vm_compute. Qed.

End WeekFacts.

(** C8, at a date of the year 50. For 0050-06-18 in UTC the key of the
    specification is week 25 of the year 50, but [new Date(year, 0, 1)]
    takes the year 50 for 1950, and [getISOWeek] counts the days from
    1950-01-01: the key of the journey is ["50-W-99113"]. *)
Theorem iso_week_two_digit_year :
  let t := Examples.inYear50 in
  JsDate.isoDate t = "0050-06-18" ∧
  JsDate.getFullYear Examples.host t = 50%Z ∧
  Spec.dayOfYear Examples.host t = 168%Z ∧
  Spec.weekKey Examples.host t = "50-W25" ∧
  TimeAnalyzer.getISOWeek Examples.host (Some t) = "50-W-99113" ∧
  (TimeAnalyzer.period <$>
     from_option TimeAnalyzer.weekly []
       (TimeAnalyzer.analyzeTimeData Examples.host exactRounding Examples.ancient))
  = ["50-W-99113"].
Proof. by vm_compute. Qed.

Module CalendarFacts.

Import JsDate.

Local Open Scope Z_scope.

(** The year of [civilFromDays] is the year of ECMAScript's [YearFromTime]:
    the day lies between January 1 of this year and of the next. *)
Lemma year_of_day (d : Z) :
  let y := (civilFromDays d).1.1 in
  dayFromYear y <= d < dayFromYear (y + 1).
Proof.
  unfold civilFromDays, dayFromYear. cbv zeta. simpl fst.
  set (z := d + 719468).
  set (era := z / 146097).
  set (doe := z - era * 146097).
  assert (Hdoe : 0 <= doe < 146097)
    by (unfold doe, era; Z.div_mod_to_equations; lia).
  set (yoe := (doe - doe / 1460 + doe / 36524 - doe / 146096) / 365).
  assert (Hyoe : 0 <= yoe <= 399)
    by (unfold yoe; Z.div_mod_to_equations; lia).
  set (doy := doe - (365 * yoe + yoe / 4 - yoe / 100)).
  assert (Hdoy : 0 <= doy <= 365)
    by (unfold doy, yoe; Z.div_mod_to_equations; lia).
  assert (Hleap : doy = 365 → yoe mod 4 = 3 ∧ (yoe mod 100 ≠ 99 ∨ yoe = 399))
    by (unfold doy, yoe; Z.div_mod_to_equations; lia).
  set (mp := (5 * doy + 2) / 153).
  assert (Hm : ((if mp <? 10 then mp + 3 else mp - 9) <=? 2)
               = negb (doy <? 306)).
  { unfold mp. destruct (doy <? 306) eqn:Hlt; simpl.
    - apply Z.ltb_lt in Hlt.
      replace ((5 * doy + 2) / 153 <? 10) with true
        by (symmetry; apply Z.ltb_lt; Z.div_mod_to_equations; lia).
      apply Z.leb_gt. Z.div_mod_to_equations; lia.
    - apply Z.ltb_ge in Hlt.
      replace ((5 * doy + 2) / 153 <? 10) with false
        by (symmetry; apply Z.ltb_ge; Z.div_mod_to_equations; lia).
      apply Z.leb_le. Z.div_mod_to_equations; lia. }
  rewrite Hm.
  assert (Hd : d = era * 146097 + (365 * yoe + yoe / 4 - yoe / 100)
                   + doy - 719468)
    by (unfold doy, doe, z; lia).
  clearbody doy yoe era. clear mp Hm doe Hdoe z.
  destruct (doy <? 306) eqn:Hlt; simpl negb; cbv iota.
  - apply Z.ltb_lt in Hlt. Z.div_mod_to_equations; lia.
  - apply Z.ltb_ge in Hlt. Z.div_mod_to_equations; lia.
Qed.

(** The day of the year of the specification runs from 0 to 365. *)
Lemma dayOfYear_range H (t : Z) : 0 <= Spec.dayOfYear H t <= 365.
Proof.
  unfold Spec.dayOfYear, getFullYear, yearFromTime.
  pose proof (year_of_day (day (localTime H t))) as Hy. cbv zeta in Hy.
  set (y := (civilFromDays (day (localTime H t))).1.1) in *.
  assert (dayFromYear (y + 1) - dayFromYear y <= 366)
    by (unfold dayFromYear; Z.div_mod_to_equations; lia).
  lia.
Qed.

End CalendarFacts.

(** ** Ratios *)

Module RatioFacts.













End RatioFacts.

Module ImprovedRatioFacts.

Import Improved Aux RatioFacts.







End ImprovedRatioFacts.

Module AnalyzerRatioFacts.

Import Analyzer RatioFacts RatioInv.

Lemma zeroStats_unrated : unrated zeroStats.
Proof. done. Qed.












End AnalyzerRatioFacts.

Module TimeFacts.

Import TimeAnalyzer RatioFacts.





(** *** [analyzeTimeData] never throws *)

Lemma isValid_dateOf H tx : isValid H tx = true → is_Some (dateOf H tx).
Proof.
  unfold isValid. destruct (Tx.processing_date tx) as [[d|s]|] eqn:Hd;
    [| |done].
  - destruct (dateOf H tx); [eauto | done].
  - destruct s; [done|]. destruct (dateOf H tx); [eauto | done].
Qed.

Lemma addTransaction_dated H (m : gmap string Journey) tx :
  isValid H tx = true →
  map_Forall (fun _ j => is_Some (date j)) m →
  map_Forall (fun _ j => is_Some (date j)) (addTransaction H m tx).
Proof.
  intros Hvalid Hm k j. unfold addTransaction.
  destruct (decide (orderIdOf tx = k)) as [<-|Hne].
  - rewrite lookup_alter_eq. destruct (m !! orderIdOf tx) as [j0|] eqn:Hj0.
    + rewrite Hj0. intros [= <-]. simpl. by eapply Hm.
    + rewrite lookup_insert_eq. intros [= <-]. simpl.
      by apply isValid_dateOf.
  - rewrite lookup_alter_ne by done. destruct (m !! orderIdOf tx).
    + apply Hm.
    + rewrite lookup_insert_ne by done. apply Hm.
Qed.

Lemma buildJourneys_dated H (vs : list Transaction) :
  Forall (fun tx => isValid H tx = true) vs →
  map_Forall (fun _ j => is_Some (date j)) (buildJourneys H vs).
Proof.
  intros Hvs. unfold buildJourneys.
  assert (Hgen : ∀ m : gmap string Journey,
    map_Forall (fun _ j => is_Some (date j)) m →
    map_Forall (fun _ j => is_Some (date j)) (foldl (addTransaction H) m vs)).
  { induction Hvs as [|tx vs Htx Hvs IH]; intros m Hm; simpl; [done|].
    by apply IH, addTransaction_dated. }
  intros k j. rewrite lookup_fmap.
  destruct (foldl _ _ _ !! k) as [j0|] eqn:Hj0; [|done]. intros [= <-]. simpl.
  eapply (Hgen ∅); [apply map_Forall_empty | exact Hj0].
Qed.

Lemma groupJourneys_total H (js : list Journey) :
  Forall (fun j => is_Some (date j)) js → is_Some (groupJourneys H js).
Proof.
  unfold groupJourneys. generalize {| dailyGroups := ∅; weeklyGroups := ∅;
                                      monthlyGroups := ∅ |}.
  intros g Hjs. revert g.
  induction Hjs as [|j js [t Ht] Hjs IH]; intros g; simpl; [eauto|].
  rewrite Ht. simpl. apply IH.
Qed.

Lemma filter_valid H (txs : list Transaction) :
  Forall (fun tx => isValid H tx = true) (List.filter (isValid H) txs).
Proof.
  apply Forall_forall. intros tx Htx. apply list_elem_of_In in Htx.
  by apply filter_In in Htx as [_ ?].
Qed.

Lemma analyzeTimeData_total H R txs : is_Some (analyzeTimeData H R txs).
Proof.
  unfold analyzeTimeData. pose proof (filter_valid H txs) as Hvalid.
  destruct (List.filter (isValid H) txs) as [|v vs]; [eauto|].
  destruct (groupJourneys_total H (objectValues (buildJourneys H (v :: vs))))
    as [g Hg].
  - apply Forall_forall. intros j [k Hk]%elem_of_objectValues.
    by eapply buildJourneys_dated.
  - rewrite Hg. simpl. eauto.
Qed.

Lemma analyzeData_total H R txs : is_Some (Analyzer.analyzeData H R txs).
Proof.
  unfold Analyzer.analyzeData.
  destruct (analyzeTimeData_total H R txs) as [ta ->]. simpl. eauto.
Qed.

End TimeFacts.

(** ** Claim about the ratios *)



(** * Further properties *)

(** ** The first pass of [improvedAnalyzeData] *)

Module GroupFacts.

Import Improved Input.

Lemma groupFrom_lookup H (txs : list Transaction) i
    (m : gmap string TransactionJourney) k :
  groupFrom H i txs m !! k = orderFold H k i txs (m !! k).
Proof.
  revert i m. induction txs as [|tx txs IH]; intros i m; simpl; [done|].
  rewrite IH, ImprovedFacts.addTransaction_lookup.
  destruct (decide (orderIdOf tx = k)) as [->|Hne].
  - by rewrite bool_decide_eq_true_2.
  - by rewrite bool_decide_eq_false_2.
Qed.

Lemma orderFold_is_Some H k (txs : list Transaction) i cur :
  is_Some (orderFold H k i txs cur) ↔ is_Some cur ∨ txsOf k txs ≠ [].
Proof.
  revert i cur. induction txs as [|tx txs IH]; intros i cur; simpl.
  - split; [auto | by intros [?|?]].
  - rewrite IH. unfold txsOf. simpl. case_bool_decide; simpl.
    + split; [by right | left; eauto].
    + done.
Qed.

Lemma orderFold_attempts H k (txs : list Transaction) i cur :
  attemptSummary <$> from_option attempts [] (orderFold H k i txs cur)
  = (attemptSummary <$> from_option attempts [] cur)
      ++ (txSummary <$> txsOf k txs).
Proof.
  revert i cur. induction txs as [|tx txs IH]; intros i cur; simpl.
  - by rewrite app_nil_r.
  - rewrite IH. unfold txsOf. simpl. case_bool_decide; simpl; [|done].
    rewrite fmap_app, <- app_assoc. f_equal.
    by destruct cur.
Qed.

Lemma orderFold_timestamps H k (txs : list Transaction) i cur :
  Forall (fun a => is_Some (timestamp a)) (from_option attempts [] cur) →
  Forall (fun a => is_Some (timestamp a))
         (from_option attempts [] (orderFold H k i txs cur)).
Proof.
  revert i cur. induction txs as [|tx txs IH]; intros i cur Hcur; simpl; [done|].
  apply IH. case_bool_decide; simpl; [|done].
  apply Forall_app. split; [by destruct cur|].
  constructor; [simpl; eauto | constructor].
Qed.

(** A journey that exists keeps its seed and its [approvedBy]. *)
Lemma orderFold_Some H k (txs : list Transaction) i c :
  ∃ j, orderFold H k i txs (Some c) = Some j
       ∧ seedOf j = seedOf c ∧ approvedBy j = approvedBy c.
Proof.
  revert i c. induction txs as [|tx txs IH]; intros i c; simpl; [eauto|].
  case_bool_decide; [|apply IH].
  destruct (IH (S i) (pushAttempt (newAttempt (dateOf H i tx) tx) c))
    as (j & Hj & Hseed & Happ).
  exists j. by split_and!.
Qed.

(** The seed of a new journey comes from the first transaction of the
    order. *)
Lemma orderFold_seed H k (txs : list Transaction) i i0 tx0 :
  txs !! i0 = Some tx0 → orderIdOf tx0 = k →
  (∀ i' tx', txs !! i' = Some tx' → i' < i0 → orderIdOf tx' ≠ k) →
  ∃ j, orderFold H k i txs None = Some j
       ∧ seedOf j = seedOf (newJourney k (dateOf H (i + i0) tx0) tx0)
       ∧ approvedBy j = None.
Proof.
  revert i i0. induction txs as [|tx txs IH]; intros i i0 Hi0 Hk Hfirst;
    [done|].
  simpl. destruct i0 as [|i0]; simpl in Hi0.
  - injection Hi0 as ->. rewrite bool_decide_eq_true_2 by done. simpl.
    rewrite Nat.add_0_r.
    destruct (orderFold_Some H k txs (S i)
                (pushAttempt (newAttempt (dateOf H i tx0) tx0)
                   (newJourney k (dateOf H i tx0) tx0)))
      as (j & Hj & Hseed & Happ).
    exists j. by split_and!.
  - rewrite bool_decide_eq_false_2
      by (apply (Hfirst 0 tx); [done | lia]).
    destruct (IH (S i) i0 Hi0 Hk) as (j & Hj & Hseed & Happ).
    { intros i' tx' Hi' Hlt. apply (Hfirst (S i') tx'); [done | lia]. }
    exists j. split_and!; [done | | done].
    by replace (i + S i0) with (S i + i0) by lia.
Qed.

End GroupFacts.

(** ** The journeys of [improvedAnalyzeData], from the transactions *)

Module JourneyFacts.

Import Improved Input.

Lemma fmap_imap_setPosition {B} (h : Attempt → B) (l : list Attempt) :
  (∀ i a, h (setPosition i a) = h a) →
  h <$> imap setPosition l = h <$> l.
Proof.
  intros Hh. apply list_eq. intros i.
  rewrite !list_lookup_fmap, list_lookup_imap.
  destruct (l !! i); simpl; [|done]. by rewrite Hh.
Qed.

Lemma finalize_summary j :
  attemptSummary <$> attempts (finalize j) ≡ₚ attemptSummary <$> attempts j.
Proof.
  simpl. rewrite fmap_imap_setPosition by done.
  by rewrite ImprovedFacts.sortAttempts_perm.
Qed.

Lemma finalize_sum (h : Attempt → nat) j :
  (∀ i a, h (setPosition i a) = h a) →
  sum_list (h <$> attempts (finalize j)) = sum_list (h <$> attempts j).
Proof.
  intros Hh. simpl. rewrite fmap_imap_setPosition by done.
  by rewrite ImprovedFacts.sortAttempts_perm.
Qed.

Lemma finalize_position j i a :
  attempts (finalize j) !! i = Some a → position a = i + 1.
Proof.
  simpl. rewrite list_lookup_imap.
  destruct (sortAttempts (attempts j) !! i); [|done]. by intros [= <-].
Qed.

Lemma finalize_approvedBy j :
  approvedBy j = None →
  approvedBy (finalize j)
  = pspName <$> List.find isApproving (attempts (finalize j)).
Proof.
  intros Hnone. simpl. by destruct (List.find _ _).
Qed.

(** The journey of order [k] before the second pass. *)
Lemma grouped_lookup H (txs : list Transaction) k :
  groupFrom H 0 txs ∅ !! k = orderFold H k 0 txs None.
Proof. by rewrite GroupFacts.groupFrom_lookup, lookup_empty. Qed.

Lemma journey_lookup H (txs : list Transaction) k :
  buildJourneys H txs !! k = finalize <$> orderFold H k 0 txs None.
Proof. unfold buildJourneys. by rewrite lookup_fmap, grouped_lookup. Qed.

Lemma txsOf_nonempty k (txs : list Transaction) :
  txsOf k txs ≠ [] ↔ ∃ tx, tx ∈ txs ∧ orderIdOf tx = k.
Proof.
  unfold txsOf. split.
  - destruct (List.filter _ txs) as [|tx l] eqn:Hf; [done|]. intros _.
    assert (Hin : In tx (List.filter (fun tx => bool_decide (orderIdOf tx = k)) txs))
      by (rewrite Hf; by left).
    apply filter_In in Hin as [Hin Hk]. exists tx.
    split; [by apply list_elem_of_In | by apply bool_decide_eq_true in Hk].
  - intros (tx & Hin & Hk) Hnil.
    assert (Hf : In tx (List.filter (fun tx => bool_decide (orderIdOf tx = k)) txs)).
    { apply filter_In. split; [by apply list_elem_of_In|].
      by apply bool_decide_eq_true. }
    by rewrite Hnil in Hf.
Qed.

(** *** Sums over the attempts of all journeys *)

Lemma addTransaction_insert H (m : gmap string TransactionJourney) i tx :
  addTransaction H m i tx
  = <[orderIdOf tx :=
        pushAttempt (newAttempt (dateOf H i tx) tx)
          (default (newJourney (orderIdOf tx) (dateOf H i tx) tx)
                   (m !! orderIdOf tx))]> m.
Proof.
  apply map_eq. intros k. rewrite ImprovedFacts.addTransaction_lookup.
  case_decide as Hk.
  - subst k. by rewrite lookup_insert_eq.
  - by rewrite lookup_insert_ne.
Qed.

Lemma groupFrom_sum H (h : Attempt → nat) (g : Transaction → nat)
    (txs : list Transaction) i (m : gmap string TransactionJourney) :
  (∀ d tx, h (newAttempt d tx) = g tx) →
  sum_list ((fun j => sum_list (h <$> attempts j))
              <$> objectValues (groupFrom H i txs m))
  = sum_list ((fun j => sum_list (h <$> attempts j)) <$> objectValues m)
    + sum_list (g <$> txs).
Proof.
  intros Hg. revert i m. induction txs as [|tx txs IH]; intros i m; csimpl;
    [lia|].
  rewrite IH, addTransaction_insert.
  pose proof (sum_values_insert (fun j => sum_list (h <$> attempts j)) m
                (orderIdOf tx)
                (pushAttempt (newAttempt (dateOf H i tx) tx)
                   (default (newJourney (orderIdOf tx) (dateOf H i tx) tx)
                            (m !! orderIdOf tx)))) as Hins.
  cbv beta in Hins. simpl attempts in Hins.
  rewrite fmap_app, sum_list_with_app in Hins. csimpl in Hins.
  rewrite Hg in Hins.
  destruct (m !! orderIdOf tx); simpl in *; lia.
Qed.

(** The sum of a weight [h] over the attempts of all journeys is the sum
    over the transactions of the weight [g] that [h] gives their attempt. *)
Lemma journeys_sum H (h : Attempt → nat) (g : Transaction → nat)
    (txs : list Transaction) :
  (∀ d tx, h (newAttempt d tx) = g tx) →
  (∀ i a, h (setPosition i a) = h a) →
  sum_list ((fun j => sum_list (h <$> attempts j))
              <$> objectValues (buildJourneys H txs))
  = sum_list (g <$> txs).
Proof.
  intros Hg Hh. unfold buildJourneys.
  rewrite objectValues_fmap, <- list_fmap_compose.
  rewrite (sum_list_fmap_ext _ (fun j => sum_list (h <$> attempts j))).
  - rewrite (groupFrom_sum H h g) by done.
    by rewrite objectValues_empty.
  - intros j _. simpl. by apply finalize_sum.
Qed.

End JourneyFacts.

(** X1. In the result of [improvedAnalyzeData], order [k] has a journey
    exactly when some transaction has this order key; the journey carries
    the key, and its attempts are, up to their order, the PSP and status of
    the transactions of the order, one attempt for each. *)
Theorem journey_of_order (H : Host) (R : Rounding) (txs : list Transaction)
    (k : string) :
  let r := improvedAnalyzeData H R txs in
  (is_Some (transactionJourneys r !! k) ↔ ∃ tx, tx ∈ txs ∧ orderIdOf tx = k) ∧
  ∀ j, transactionJourneys r !! k = Some j →
       merchantOrderId j = k ∧
       Input.attemptSummary <$> attempts j
         ≡ₚ Input.txSummary <$> Input.txsOf k txs ∧
       totalAttempts j = length (Input.txsOf k txs).
Proof.
  intros r. simpl. rewrite JourneyFacts.journey_lookup. split.
  - rewrite fmap_is_Some, GroupFacts.orderFold_is_Some.
    rewrite JourneyFacts.txsOf_nonempty. split; [|auto].
    intros [[? [=]]|?]; done.
  - intros j Hj.
    destruct (Input.orderFold H k 0 txs None) as [j0|] eqn:Hj0; [|done].
    injection Hj as <-.
    pose proof (GroupFacts.orderFold_attempts H k txs 0 None) as Hatt.
    rewrite Hj0 in Hatt. simpl in Hatt.
    assert (Hne : Input.txsOf k txs ≠ []).
    { destruct (proj1 (GroupFacts.orderFold_is_Some H k txs 0 None))
        as [[? [=]]|?]; [by rewrite Hj0 | done]. }
    assert (Hseed : merchantOrderId j0 = k).
    { clear Hatt. revert Hj0.
      assert (Hgen : ∀ txs i cur j0,
        from_option (fun c => merchantOrderId c = k) True cur →
        Input.orderFold H k i txs cur = Some j0 → merchantOrderId j0 = k).
      { clear. intros txs. induction txs as [|tx txs IH]; intros i cur j0 Hcur;
          simpl.
        - intros ->. exact Hcur.
        - apply IH. case_bool_decide; [|done]. simpl. by destruct cur. }
      by apply Hgen. }
    split_and!; [done | |].
    + rewrite JourneyFacts.finalize_summary. by rewrite Hatt.
    + change (totalAttempts (finalize j0))
        with (length (attempts (finalize j0))).
      rewrite <- (length_fmap Input.attemptSummary),
        JourneyFacts.finalize_summary, Hatt. by rewrite length_fmap.
Qed.

(** X1 on order 1 of the sample [Examples.rescued]. *)
Lemma journey_of_order_witness :
  let r := improvedAnalyzeData Examples.host exactRounding Examples.rescued in
  let j := default (newJourney "" None (Examples.tx "" "" ""))
             (transactionJourneys r !! "1") in
  merchantOrderId j = "1" ∧
  Input.attemptSummary <$> attempts j
    ≡ₚ Input.txSummary <$> Input.txsOf "1" Examples.rescued ∧
  totalAttempts j = length (Input.txsOf "1" Examples.rescued).
Proof.
  intros r j.
  apply (proj2 (journey_of_order Examples.host exactRounding Examples.rescued "1")).
  vm_compute. reflexivity.
Defined.

(** X2. No transaction is dropped and none is counted twice: the attempts
    of all journeys of [improvedAnalyzeData] together are as many as the
    transactions. *)
Theorem no_transaction_dropped (H : Host) (R : Rounding)
    (txs : list Transaction) :
  let r := improvedAnalyzeData H R txs in
  sum_list (totalAttempts <$> objectValues (transactionJourneys r))
  = length txs.
Proof.
  intros r. simpl.
  pose proof (JourneyFacts.journeys_sum H (fun _ => 1) (fun _ => 1) txs
                ltac:(done) ltac:(done)) as Hsum.
  rewrite (sum_list_fmap_ext totalAttempts
             (fun j => sum_list ((fun _ => 1) <$> attempts j))).
  - rewrite Hsum. clear. induction txs; csimpl; [done | lia].
  - intros j Hj.
    destruct (ImprovedFacts.journeyArray_improvedJourney H txs j Hj)
      as (_ & _ & -> & _).
    generalize (attempts j). clear. intros l.
    induction l; csimpl; [done | lia].
Qed.

(** ** Sorting *)

Section SortFacts.

Context {A : Type} (cmp : A → A → Z) (D : A → Prop).

Let le (a b : A) : Prop := (cmp a b <= 0)%Z.

(** On [D] the comparator is total and transitive. *)
Context (Htotal : ∀ a b, D a → D b → le a b ∨ le b a).
Context (Htrans : ∀ a b c, D a → D b → D c → le a b → le b c → le a c).

Lemma sortInsert_sorted (x : A) (l : list A) :
  D x → Forall D l →
  StronglySorted le l → StronglySorted le (sortInsert cmp x l).
Proof.
  intros Hx Hl Hsorted. induction Hsorted as [|y l Hs IH Hy]; simpl.
  - repeat constructor.
  - apply Forall_cons in Hl as [HDy HDl].
    destruct (cmp x y <=? 0)%Z eqn:Hxy.
    + apply Z.leb_le in Hxy. constructor; [by constructor|].
      constructor; [done|].
      rewrite Forall_forall in Hy, HDl. apply Forall_forall. intros z Hz.
      apply (Htrans x y z); auto.
    + apply Z.leb_gt in Hxy. constructor; [by apply IH|].
      rewrite sortInsert_perm. constructor; [|done].
      destruct (Htotal x y Hx HDy) as [Hle|Hle]; [unfold le in Hle; lia|done].
Qed.

(** [arraySort] sorts a list of [D]. *)
Lemma arraySort_sorted (l : list A) :
  Forall D l → StronglySorted le (arraySort cmp l).
Proof.
  unfold arraySort. induction l as [|x l IH]; intros Hl; simpl.
  - constructor.
  - apply Forall_cons in Hl as [Hx Hl].
    apply sortInsert_sorted; [done | | by apply IH].
    fold (arraySort cmp l). by rewrite arraySort_perm.
Qed.

End SortFacts.

Lemma StronglySorted_imap {A} (R : relation A) (f : nat → A → A) (l : list A) :
  (∀ i j a b, R a b → R (f i a) (f j b)) →
  StronglySorted R l → StronglySorted R (imap f l).
Proof.
  intros Hf Hsorted. revert f Hf.
  induction Hsorted as [|x l Hs IH Hx]; intros f Hf; simpl; constructor.
  - apply IH. intros i j a b. apply Hf.
  - apply Forall_forall. intros y (i & b & -> & Hb)%elem_of_lookup_imap.
    apply Hf. rewrite Forall_forall in Hx. apply Hx.
    by eapply list_elem_of_lookup_2.
Qed.

Lemma StronglySorted_weaken {A} (R1 R2 : relation A) (l : list A) :
  (∀ a b, a ∈ l → b ∈ l → R1 a b → R2 a b) →
  StronglySorted R1 l → StronglySorted R2 l.
Proof.
  intros Himp Hsorted. induction Hsorted as [|x l Hs IH Hx]; constructor.
  - apply IH. intros a b Ha Hb. apply Himp; by right.
  - rewrite Forall_forall in Hx. apply Forall_forall. intros y Hy.
    apply Himp; [by left | by right | by apply Hx].
Qed.

Module OrderFacts.

Import Improved Input.

Lemma timeOf_setPosition i a : timeOf (setPosition i a) = timeOf a.
Proof. done. Qed.

Lemma compare_valid (a b : Attempt) ta tb :
  timeOf a = Some ta → timeOf b = Some tb →
  compareTimestamps (timestamp a) (timestamp b) = (ta - tb)%Z.
Proof.
  unfold timeOf. destruct (timestamp a) as [[?|]|], (timestamp b) as [[?|]|];
    try done.
  by intros [= ->] [= ->].
Qed.

(** Attempts with valid times come out of [sortAttempts] by time. *)
Lemma sortAttempts_sorted (l : list Attempt) :
  Forall (fun a => is_Some (timeOf a)) l →
  StronglySorted notLater (sortAttempts l).
Proof.
  intros Hl. unfold sortAttempts. destruct (existsb hasTimestamp l) eqn:Hex.
  - eapply StronglySorted_weaken;
      [|apply (arraySort_sorted _ (fun a => is_Some (timeOf a)))].
    + intros a b Ha Hb. simpl.
      rewrite arraySort_perm in Ha, Hb. rewrite Forall_forall in Hl.
      destruct (Hl a Ha) as [ta Hta], (Hl b Hb) as [tb Htb].
      rewrite (compare_valid a b ta tb) by done. unfold notLater.
      rewrite Hta, Htb. lia.
    + intros a b [ta Hta] [tb Htb].
      rewrite (compare_valid a b ta tb), (compare_valid b a tb ta) by done.
      lia.
    + intros a b c [ta Hta] [tb Htb] [tc Htc].
      rewrite (compare_valid a b ta tb), (compare_valid b c tb tc),
        (compare_valid a c ta tc) by done.
      lia.
    + done.
  - destruct l as [|a l]; [constructor|].
    apply Forall_cons in Hl as [[ta Hta] _]. simpl in Hex.
    unfold hasTimestamp, timeOf in *. by destruct (timestamp a).
Qed.

End OrderFacts.

(** X3. The first transaction of an order, in the order of the input,
    decides the journey's country, transaction id and date; later
    transactions of the order do not change them. *)
Theorem journey_seed (H : Host) (R : Rounding) (txs : list Transaction)
    (i0 : nat) (tx0 : Transaction) :
  txs !! i0 = Some tx0 →
  (∀ i' tx', txs !! i' = Some tx' → i' < i0 → orderIdOf tx' ≠ orderIdOf tx0) →
  ∃ j, transactionJourneys (improvedAnalyzeData H R txs) !! orderIdOf tx0
         = Some j ∧
       country j = countryOf tx0 ∧
       transactionId j = orElse (Tx.transactionId tx0) (orderIdOf tx0) ∧
       date j = Improved.dateOf H i0 tx0.
Proof.
  intros Hi0 Hfirst. simpl. rewrite JourneyFacts.journey_lookup.
  destruct (GroupFacts.orderFold_seed H (orderIdOf tx0) txs 0 i0 tx0
              Hi0 eq_refl Hfirst) as (j0 & -> & Hseed & _).
  exists (finalize j0). split; [done|].
  unfold Input.seedOf in Hseed. simpl in Hseed. simpl.
  by injection Hseed as -> _ -> ->.
Qed.

(** X3 on order 1 of the sample [Examples.rescued]. *)
Lemma journey_seed_witness :
  ∃ j, transactionJourneys
         (improvedAnalyzeData Examples.host exactRounding Examples.rescued)
       !! "1" = Some j ∧
       country j = "DE" ∧ transactionId j = "1" ∧ date j = Some 0%Z.
Proof.
  apply (journey_seed Examples.host exactRounding Examples.rescued 0
           (Examples.tx "1" "A" "declined")).
  - reflexivity.
  - intros i' tx' _ Hlt. lia.
Defined.

(** X4. In a journey of [improvedAnalyzeData] the attempt at index [i] has
    position [i + 1], and [totalAttempts] is the number of attempts, at
    least 1. *)
Theorem attempt_positions (H : Host) (R : Rounding) (txs : list Transaction)
    (k : string) (j : TransactionJourney) :
  transactionJourneys (improvedAnalyzeData H R txs) !! k = Some j →
  (∀ i a, attempts j !! i = Some a → position a = i + 1) ∧
  totalAttempts j = length (attempts j) ∧
  1 ≤ totalAttempts j.
Proof.
  intros Hj.
  pose proof (ImprovedFacts.buildJourneys_improvedJourney H txs k j Hj)
    as (Hne & _ & Htotal & _).
  simpl in Hj. rewrite JourneyFacts.journey_lookup in Hj.
  destruct (Input.orderFold H k 0 txs None) as [j0|]; [|done].
  injection Hj as <-. split_and!.
  - intros i a. apply JourneyFacts.finalize_position.
  - done.
  - rewrite Htotal. destruct (attempts (finalize j0)); [done | simpl; lia].
Qed.

(** X4 on order 1 of the sample [Examples.rescued]. *)
Lemma attempt_positions_witness :
  let j := default (newJourney "" None (Examples.tx "" "" ""))
             (transactionJourneys
                (improvedAnalyzeData Examples.host exactRounding Examples.rescued)
              !! "1") in
  (∀ i a, attempts j !! i = Some a → position a = i + 1) ∧
  totalAttempts j = length (attempts j) ∧
  1 ≤ totalAttempts j.
Proof.
  intros j.
  apply (attempt_positions Examples.host exactRounding Examples.rescued "1").
  vm_compute. reflexivity.
Defined.

(** X5. In a journey of [improvedAnalyzeData], [approvedBy] is the PSP of
    the first approving attempt of the sorted attempts, and it is undefined
    exactly when the journey failed. *)
Theorem approved_by_first_approving (H : Host) (R : Rounding)
    (txs : list Transaction) (k : string) (j : TransactionJourney) :
  transactionJourneys (improvedAnalyzeData H R txs) !! k = Some j →
  approvedBy j = pspName <$> List.find isApproving (attempts j) ∧
  (approvedBy j = None ↔ finalStatus j = failed).
Proof.
  intros Hj. simpl in Hj. rewrite JourneyFacts.journey_lookup in Hj.
  destruct (Input.orderFold H k 0 txs None) as [j0|] eqn:Hj0; [|done].
  injection Hj as <-.
  assert (Hnone : approvedBy j0 = None).
  { assert (Hgen : ∀ txs i cur j0,
      from_option (fun c => approvedBy c = None) True cur →
      Input.orderFold H k i txs cur = Some j0 → approvedBy j0 = None).
    { clear. intros txs. induction txs as [|tx txs IH]; intros i cur j0 Hcur;
        simpl.
      - intros ->. exact Hcur.
      - apply IH. case_bool_decide; [|done]. simpl. by destruct cur. }
    by apply (Hgen txs 0 None). }
  split; [by apply JourneyFacts.finalize_approvedBy|].
  simpl. rewrite Hnone. by destruct (List.find _ _).
Qed.

(** X5 on order 1 of the sample [Examples.rescued]. *)
Lemma approved_by_first_approving_witness :
  let j := default (newJourney "" None (Examples.tx "" "" ""))
             (transactionJourneys
                (improvedAnalyzeData Examples.host exactRounding Examples.rescued)
              !! "1") in
  approvedBy j = pspName <$> List.find isApproving (attempts j) ∧
  (approvedBy j = None ↔ finalStatus j = failed).
Proof.
  intros j.
  apply (approved_by_first_approving Examples.host exactRounding
           Examples.rescued "1").
  vm_compute. reflexivity.
Defined.

(** X6. When every attempt of a journey of [improvedAnalyzeData] has a
    valid timestamp, its attempts are in ascending order of time. *)
Theorem attempts_sorted_by_time (H : Host) (R : Rounding)
    (txs : list Transaction) (k : string) (j : TransactionJourney) :
  transactionJourneys (improvedAnalyzeData H R txs) !! k = Some j →
  (∀ a, a ∈ attempts j → is_Some (Input.timeOf a)) →
  StronglySorted Input.notLater (attempts j).
Proof.
  intros Hj Hvalid. simpl in Hj. rewrite JourneyFacts.journey_lookup in Hj.
  destruct (Input.orderFold H k 0 txs None) as [j0|]; [|done].
  injection Hj as <-. simpl in *.
  apply StronglySorted_imap; [done|].
  apply OrderFacts.sortAttempts_sorted.
  rewrite <- (ImprovedFacts.sortAttempts_perm (attempts j0)).
  apply Forall_forall. intros a Ha.
  apply list_elem_of_lookup in Ha as [i Hi].
  rewrite <- (OrderFacts.timeOf_setPosition i a). apply Hvalid.
  apply elem_of_lookup_imap. eauto.
Qed.

(** X6 on the sample [Samples.outOfOrder]. *)
Lemma attempts_sorted_by_time_witness :
  let j := default (newJourney "" None (Examples.tx "" "" ""))
             (transactionJourneys
                (improvedAnalyzeData Examples.host exactRounding Samples.outOfOrder)
              !! "5") in
  StronglySorted Input.notLater (attempts j).
Proof.
  intros j.
  apply (attempts_sorted_by_time Examples.host exactRounding
           Samples.outOfOrder "5").
  - vm_compute. reflexivity.
  - apply Forall_forall. vm_compute. repeat constructor; by eexists.
Defined.

(** ** The attempt counters of [improvedAnalyzeData], from the transactions *)

Module AttemptFacts.

Import Improved Aux.

Section Counter.

Context {B : Type} (f : PSPStats → nat) (g : B → PSPStats → PSPStats)
        (key : B → string) (w : B → nat).
Context (Hstep : ∀ b s, f (g b s) = f s + w b).

(** A loop that alters one entry for each element adds to the counter [f]
    of entry [P] the weights of the elements of key [P]. *)
Lemma alterLoop_counter (l : list B) (st : gmap string PSPStats) P :
  f <$> (foldl (fun st b => alter (g b) (key b) st) st l !! P)
  = (fun n => n + sum_list ((fun b => if bool_decide (key b = P) then w b else 0)
                              <$> l))
      <$> (f <$> st !! P).
Proof.
  revert st. induction l as [|b l IH]; intros st; csimpl.
  - destruct (st !! P); simpl; [f_equal; lia | done].
  - rewrite IH. destruct (decide (key b = P)) as [Hk|Hk].
    + rewrite bool_decide_eq_true_2 by done. subst P.
      rewrite lookup_alter_eq. destruct (st !! key b); simpl; [|done].
      rewrite Hstep. f_equal. lia.
    + rewrite bool_decide_eq_false_2 by done.
      rewrite lookup_alter_ne by done. by destruct (st !! P).
Qed.

End Counter.

Lemma sum_list_bind {A B} (h : B → nat) (g : A → list B) (l : list A) :
  sum_list (h <$> (l ≫= g)) = sum_list ((fun a => sum_list (h <$> g a)) <$> l).
Proof.
  induction l as [|a l IH]; csimpl; [done|].
  by rewrite fmap_app, sum_list_with_app, IH.
Qed.

(** A counter of the attempt loop, for PSP [P], after [computePspStats]. *)
Lemma attemptCounter R (js : list TransactionJourney)
    (f : PSPStats → nat) (w : Attempt → nat) P s :
  f zeroStats = 0 →
  (∀ a s, f (bumpAttempt (status a) s) = f s + w a) →
  (∀ a d s, f (addUnique a d s) = f s) →
  (∀ name s, f (withRates R js name s) = f s) →
  computePspStats R js !! P = Some s →
  f s = sum_list ((fun j => sum_list
                     ((fun a => if bool_decide (pspName a = P) then w a else 0)
                        <$> attempts j)) <$> js).
Proof.
  intros Hzero Hbump Hunique Hrates. unfold computePspStats.
  rewrite map_lookup_imap, StatsFacts.countJourney_loop.
  rewrite !StatsFacts.foldl_nested.
  pose proof (alterLoop_counter f (fun a => bumpAttempt (status a)) pspName w
                Hbump (js ≫= attempts)
                (foldl initStats ∅ (js ≫= attempts)) P) as Hloop.
  unfold countAttempt.
  destruct (foldl _ (foldl initStats ∅ (js ≫= attempts)) (js ≫= attempts) !! P)
    as [s1|]; [|done].
  simpl. intros [= <-]. rewrite Hrates, Hunique.
  rewrite StatsFacts.init_lookup, lookup_empty in Hloop.
  destruct (bool_decide (P ∈ pspName <$> js ≫= attempts)); [|done].
  simpl in Hloop. injection Hloop as ->. rewrite Hzero. simpl.
  apply sum_list_bind.
Qed.

Lemma countIf_as_sum (p : Transaction → bool) (txs : list Transaction) :
  countIf p txs = sum_list ((fun tx => b2n (p tx)) <$> txs).
Proof. by rewrite countIf_sum_list. Qed.

End AttemptFacts.

(** X7. The attempt counters of PSP [P] in [pspStats] count transactions:
    [totalAttempts] every transaction of [P], [approvedAttempts] those with
    an approving status, [declinedAttempts] those with a declining status
    that is not approving; [P] has an entry exactly when it has a
    transaction. *)
Theorem attempt_counters_from_transactions (H : Host) (R : Rounding)
    (txs : list Transaction) (P : string) :
  let r := improvedAnalyzeData H R txs in
  let ofP tx := bool_decide (pspNameOf tx = P) in
  (is_Some (pspStats r !! P) ↔ ∃ tx, tx ∈ txs ∧ pspNameOf tx = P) ∧
  ∀ s, pspStats r !! P = Some s →
       psTotalAttempts s = countIf ofP txs ∧
       approvedAttempts s
         = countIf (fun tx => ofP tx && isApprovedStatus (statusOf tx)) txs ∧
       declinedAttempts s
         = countIf (fun tx => ofP tx && negb (isApprovedStatus (statusOf tx))
                              && isDeclinedStatus (statusOf tx)) txs.
Proof.
  intros r ofP. split.
  - simpl. rewrite PspStatsFacts.computePspStats_is_Some.
    assert (Hsum : ∀ P', sum_list ((fun j => sum_list
               ((fun a => Aux.b2n (bool_decide (pspName a = P'))) <$> attempts j))
               <$> objectValues (buildJourneys H txs))
            = countIf (fun tx => bool_decide (pspNameOf tx = P')) txs).
    { intros P'. rewrite AttemptFacts.countIf_as_sum.
      by apply JourneyFacts.journeys_sum. }
    specialize (Hsum P). rewrite <- AttemptFacts.sum_list_bind in Hsum.
    split.
    + intros (a & -> & Ha)%list_elem_of_fmap.
      assert (Hpos : 0 < countIf (fun tx => bool_decide (pspNameOf tx = pspName a)) txs).
      { rewrite <- Hsum.
        apply list_elem_of_lookup in Ha as [i Hi].
        clear Hsum. revert i Hi.
        generalize (objectValues (buildJourneys H txs) ≫= attempts).
        intros l. induction l as [|b l IH]; intros i Hi; [done|]. csimpl.
        destruct i as [|i]; simpl in Hi.
        - injection Hi as ->. rewrite bool_decide_eq_true_2 by done.
          simpl. lia.
        - specialize (IH i Hi). lia. }
      unfold countIf in Hpos.
      destruct (List.filter _ txs) as [|tx l] eqn:Hf; [simpl in Hpos; lia|].
      assert (Hin : In tx (List.filter
                (fun tx => bool_decide (pspNameOf tx = pspName a)) txs))
        by (rewrite Hf; by left).
      apply filter_In in Hin as [Hin Hk]. exists tx.
      split; [by apply list_elem_of_In | by apply bool_decide_eq_true in Hk].
    + intros (tx & Hin & Hk).
      assert (Hpos : 0 < countIf (fun tx => bool_decide (pspNameOf tx = P)) txs).
      { apply (countIf_pos _ _ tx); [done | by apply bool_decide_eq_true]. }
      rewrite <- Hsum in Hpos.
      revert Hpos. generalize (objectValues (buildJourneys H txs) ≫= attempts).
      intros l. induction l as [|b l IH]; csimpl; [lia|].
      destruct (decide (pspName b = P)) as [<-|Hne].
      * intros _. by left.
      * rewrite bool_decide_eq_false_2 by done. simpl. intros Hpos.
        right. by apply IH.
  - intros s Hs. simpl in Hs.
    set (js := objectValues (buildJourneys H txs)) in *.
    assert (Hcount : ∀ (f : PSPStats → nat) (w : Attempt → nat)
                       (q : Transaction → bool),
      f zeroStats = 0 →
      (∀ a s, f (bumpAttempt (status a) s) = f s + w a) →
      (∀ a d s, f (Aux.addUnique a d s) = f s) →
      (∀ name s, f (withRates R js name s) = f s) →
      (∀ d tx, w (newAttempt d tx) = Aux.b2n (q tx)) →
      (∀ i a, w (setPosition i a) = w a) →
      f s = countIf (fun tx => ofP tx && q tx) txs).
    { intros f w q Hz Hb Hu Hr Hw Hp.
      rewrite (AttemptFacts.attemptCounter R js f w P s Hz Hb Hu Hr Hs).
      rewrite AttemptFacts.countIf_as_sum. unfold js.
      apply JourneyFacts.journeys_sum.
      - intros d tx. simpl. unfold ofP. rewrite Hw.
        by destruct (bool_decide _).
      - intros i a. simpl. by rewrite Hp. }
    split_and!.
    + rewrite (Hcount psTotalAttempts (fun _ => 1) (fun _ => true));
        try done.
      * apply StatsFacts.countIf_ext. intros tx _. by rewrite andb_true_r.
      * intros. simpl. lia.
    + apply (Hcount approvedAttempts
               (fun a => Aux.b2n (isApprovedStatus (status a)))
               (fun tx => isApprovedStatus (statusOf tx))); try done.
      intros a s'. simpl. destruct (isApprovedStatus (status a)); simpl; lia.
    + rewrite (Hcount declinedAttempts
                 (fun a => Aux.b2n (negb (isApprovedStatus (status a))
                                    && isDeclinedStatus (status a)))
                 (fun tx => negb (isApprovedStatus (statusOf tx))
                            && isDeclinedStatus (statusOf tx))); try done.
      * apply StatsFacts.countIf_ext. intros tx _. by rewrite andb_assoc.
      * intros a s'. simpl.
        destruct (isApprovedStatus (status a)), (isDeclinedStatus (status a));
          simpl; lia.
Qed.

(** X7 on the sample [Examples.rescued], for PSP A. *)
Lemma attempt_counters_from_transactions_witness :
  let s := default zeroStats
             (pspStats (improvedAnalyzeData Examples.host exactRounding
                          Examples.rescued) !! "A") in
  let ofP tx := bool_decide (pspNameOf tx = "A") in
  psTotalAttempts s = countIf ofP Examples.rescued ∧
  approvedAttempts s
    = countIf (fun tx => ofP tx && isApprovedStatus (statusOf tx))
              Examples.rescued ∧
  declinedAttempts s
    = countIf (fun tx => ofP tx && negb (isApprovedStatus (statusOf tx))
                         && isDeclinedStatus (statusOf tx)) Examples.rescued.
Proof.
  intros s ofP.
  apply (proj2 (attempt_counters_from_transactions
                  Examples.host exactRounding Examples.rescued "A")).
  vm_compute. reflexivity.
Defined.

(** ** The country breakdown of [improvedAnalyzeData] *)

Module CountryFacts.

Import Improved.

Lemma groupByCountry_loop (js : list TransactionJourney)
    (m : gmap string (list TransactionJourney)) c :
  foldl (fun m j => <[country j := default [] (m !! country j) ++ [j]]> m) m js
    !! c
  = match List.filter (fun j => bool_decide (country j = c)) js with
    | [] => m !! c
    | l => Some (default [] (m !! c) ++ l)
    end.
Proof.
  revert m. induction js as [|j js IH]; intros m; simpl; [done|].
  rewrite IH. destruct (decide (country j = c)) as [Hc|Hc].
  - rewrite bool_decide_eq_true_2 by done. subst c.
    rewrite lookup_insert_eq. simpl.
    destruct (List.filter _ js); simpl; [done|].
    by rewrite <- app_assoc.
  - rewrite bool_decide_eq_false_2 by done.
    by rewrite lookup_insert_ne.
Qed.

Lemma groupByCountry_lookup (js : list TransactionJourney) c :
  groupByCountry js !! c
  = match List.filter (fun j => bool_decide (country j = c)) js with
    | [] => None
    | l => Some l
    end.
Proof.
  unfold groupByCountry. rewrite groupByCountry_loop, lookup_empty.
  by destruct (List.filter _ js).
Qed.

Lemma filter_nonempty {A} (p : A → bool) (l : list A) :
  List.filter p l ≠ [] ↔ ∃ x, x ∈ l ∧ p x = true.
Proof.
  split.
  - destruct (List.filter p l) as [|x l'] eqn:Hf; [done|]. intros _.
    assert (Hin : In x (List.filter p l)) by (rewrite Hf; by left).
    apply filter_In in Hin as [Hin Hp]. exists x.
    split; [by apply list_elem_of_In | done].
  - intros (x & Hin & Hp) Hnil.
    assert (Hf : In x (List.filter p l))
      by (apply filter_In; split; [by apply list_elem_of_In | done]).
    by rewrite Hnil in Hf.
Qed.

Lemma foldl_insert_lookup_full {V} (F : string → V) (names : list string)
    (m : gmap string V) (P : string) :
  foldl (fun m n => <[n := F n]> m) m names !! P
  = if bool_decide (P ∈ names) then Some (F P) else m !! P.
Proof.
  revert m. induction names as [|n names IH]; intros m; simpl; [done|].
  rewrite IH. destruct (decide (P ∈ names)) as [Hin|Hnin].
  - rewrite !bool_decide_eq_true_2; [done | by right | done].
  - rewrite (bool_decide_eq_false_2 (P ∈ names)) by done.
    destruct (decide (n = P)) as [->|Hne].
    + rewrite lookup_insert_eq, bool_decide_eq_true_2; [done | by left].
    + rewrite lookup_insert_ne by done.
      rewrite bool_decide_eq_false_2; [done|].
      by intros [->|?]%elem_of_cons.
Qed.

Lemma countryPSPs_elem (journeys : list TransactionJourney) P :
  P ∈ countryPSPs journeys ↔ ∃ j, j ∈ journeys ∧ P ∈ pspsInvolved j.
Proof.
  unfold countryPSPs.
  enough (Hgen : ∀ s, P ∈ foldl (fun s j => foldl setAdd s (pspsInvolved j))
                            s journeys
                      ↔ P ∈ s ∨ ∃ j, j ∈ journeys ∧ P ∈ pspsInvolved j).
  { rewrite Hgen, elem_of_nil. tauto. }
  induction journeys as [|j js IH]; intros s; simpl.
  - split; [auto|]. intros [?|(j & Hj & _)]; [done|].
    by apply elem_of_nil in Hj.
  - rewrite IH, foldl_setAdd_elem. split.
    + intros [[?|?]|(j' & ? & ?)]; [by left | |].
      * right. exists j. split; [by left | done].
      * right. exists j'. split; [by right | done].
    + intros [?|(j' & [->|?]%elem_of_cons & ?)]; [by left; left | |].
      * left. by right.
      * right. by exists j'.
Qed.

(** The entry of PSP [P] in the breakdown of a country with journeys [g]. *)
Lemma pspBreakdown_lookup R (g : list TransactionJourney) P :
  pspBreakdown (countryMetrics R g) !! P
  = if bool_decide (P ∈ countryPSPs g)
    then Some (pspBreakdownEntry R g P) else None.
Proof.
  simpl. rewrite foldl_insert_lookup_full, lookup_empty. done.
Qed.

Lemma pspBreakdownEntry_counts R (g : list TransactionJourney) P :
  approvedTransactions (pspBreakdownEntry R g P)
    = countIf (fun j => Spec.involves P j && Spec.approvedIn P j) g ∧
  declinedTransactions (pspBreakdownEntry R g P)
    = countIf (fun j => Spec.involves P j && negb (Spec.approvedIn P j)) g ∧
  totalTransactions (pspBreakdownEntry R g P) = countIf (Spec.involves P) g.
Proof.
  simpl. rewrite !ClaimFacts.countIf_filter. split_and!; [done | done |].
  apply PspStatsFacts.countIf_and_split.
Qed.

(** The approvals of [P] in a country, 0 without an entry. *)
Lemma pspBreakdown_approved R (g : list TransactionJourney) P :
  from_option approvedTransactions 0 (pspBreakdown (countryMetrics R g) !! P)
  = countIf (fun j => Spec.involves P j && Spec.approvedIn P j) g.
Proof.
  rewrite pspBreakdown_lookup. case_bool_decide as Hin.
  - exact (proj1 (pspBreakdownEntry_counts R g P)).
  - symmetry. unfold countIf.
    destruct (List.filter _ g) as [|j l] eqn:Hf; [done|]. exfalso.
    assert (Hne : List.filter
              (fun j => Spec.involves P j && Spec.approvedIn P j) g ≠ [])
      by (by rewrite Hf).
    apply filter_nonempty in Hne as (j' & Hj' & Hp).
    apply andb_true_iff in Hp as [Hinv _].
    apply Hin, countryPSPs_elem. exists j'. split; [done|].
    by apply bool_decide_eq_true in Hinv.
Qed.

(** The unique counters of [P] count journeys. *)
Lemma unique_counts H R txs P s :
  pspStats (improvedAnalyzeData H R txs) !! P = Some s →
  let js := objectValues (buildJourneys H txs) in
  uniqueApproved s
    = countIf (fun j => Spec.involves P j && Spec.approvedIn P j) js ∧
  uniqueDeclined s
    = countIf (fun j => Spec.involves P j && negb (Spec.approvedIn P j)) js.
Proof.
  intros Hs js. simpl in Hs.
  apply PspStatsFacts.computePspStats_lookup in Hs
    as (s1 & (_ & Ha & Hd) & ->).
  simpl. rewrite Ha, Hd. simpl. fold js.
  split; apply StatsFacts.countIf_ext; intros j Hj;
    by rewrite (PspStatsFacts.involves_pspsInJourney j P
                  (ImprovedFacts.journeyArray_improvedJourney H txs j Hj)).
Qed.

End CountryFacts.

(** X8. The transaction-level totals of [improvedAnalyzeData] count each
    journey once: the approved total is the number of successful journeys,
    the declined total the number of failed ones. *)
Theorem transaction_level_counts_journeys (H : Host) (R : Rounding)
    (txs : list Transaction) :
  let r := improvedAnalyzeData H R txs in
  let js := objectValues (transactionJourneys r) in
  totalApprovedTransactions (transactionLevelMetrics r)
    = Spec.successfulJourneys js ∧
  totalUniqueDeclinedTransactions (transactionLevelMetrics r)
    = length js - Spec.successfulJourneys js.
Proof.
  intros r js.
  destruct (TotalsFacts.transactionLevel_totals H R txs) as (Ha & Hd & Ht).
  fold r js in Ha, Hd, Ht. split; [exact Ha|].
  rewrite Hd. unfold Spec.successfulJourneys.
  rewrite <- (countIf_split (fun j => isSuccess (finalStatus j)) js).
  rewrite (StatsFacts.countIf_ext (fun j => isFailed (finalStatus j))
             (fun j => negb (isSuccess (finalStatus j))) js)
    by (intros j _; apply TotalsFacts.isFailed_negb).
  lia.
Qed.

(** X9. [countryBreakdown] has an entry for country [c] exactly when some
    journey has this country, and the entry counts the journeys of the
    country: the successful ones, the failed ones, and all of them. *)
Theorem country_breakdown_counts (H : Host) (R : Rounding)
    (txs : list Transaction) (c : string) :
  let r := improvedAnalyzeData H R txs in
  let js := objectValues (transactionJourneys r) in
  let ofC := List.filter (fun j => bool_decide (country j = c)) js in
  (is_Some (countryBreakdown r !! c) ↔ ∃ j, j ∈ js ∧ country j = c) ∧
  ∀ cb, countryBreakdown r !! c = Some cb →
        cbTotalApprovedTransactions cb = Spec.successfulJourneys ofC ∧
        cbTotalUniqueDeclinedTransactions cb
          = length ofC - Spec.successfulJourneys ofC ∧
        cbTotalProcessedTransactions cb = length ofC ∧
        1 ≤ length ofC.
Proof.
  intros r js ofC. subst ofC js r. simpl.
  rewrite lookup_fmap, CountryFacts.groupByCountry_lookup.
  set (js := objectValues (buildJourneys H txs)).
  pose proof (CountryFacts.filter_nonempty
                (fun j => bool_decide (country j = c)) js) as Hne.
  destruct (List.filter _ js) as [|j0 l] eqn:HofC; [simpl|].
  - split; [|by intros cb [=]]. split; [by intros [? [=]]|].
    intros (j & Hj & Hc). exfalso. apply (proj2 Hne); [|done].
    exists j. split; [done | by apply bool_decide_eq_true].
  - split.
    + split; [|by eauto]. intros _.
      destruct (proj1 Hne ltac:(done)) as (j & Hj & Hc).
      exists j. split; [done | by apply bool_decide_eq_true in Hc].
    + intros cb [= <-]. set (g := j0 :: l).
      assert (Hsplit : countIf (fun j => isSuccess (finalStatus j)) g
                       + countIf (fun j => isFailed (finalStatus j)) g
                       = length g).
      { rewrite <- (countIf_split (fun j => isSuccess (finalStatus j)) g).
        f_equal. apply StatsFacts.countIf_ext. intros j _.
        apply TotalsFacts.isFailed_negb. }
      unfold Spec.successfulJourneys.
      change (cbTotalApprovedTransactions (countryMetrics R g))
        with (countIf (fun j => isSuccess (finalStatus j)) g).
      change (cbTotalUniqueDeclinedTransactions (countryMetrics R g))
        with (countIf (fun j => isFailed (finalStatus j)) g).
      change (cbTotalProcessedTransactions (countryMetrics R g))
        with (countIf (fun j => isSuccess (finalStatus j)) g
              + countIf (fun j => isFailed (finalStatus j)) g).
      split_and!; [done | lia | exact Hsplit | unfold g; simpl; lia].
Qed.

(** X9 on the sample [Examples.rescued], for country DE. *)
Lemma country_breakdown_counts_witness :
  let r := improvedAnalyzeData Examples.host exactRounding Examples.rescued in
  let js := objectValues (transactionJourneys r) in
  let ofC := List.filter (fun j => bool_decide (country j = "DE")) js in
  ∃ cb, countryBreakdown r !! "DE" = Some cb ∧
        cbTotalApprovedTransactions cb = Spec.successfulJourneys ofC ∧
        cbTotalProcessedTransactions cb = length ofC.
Proof.
  intros r js ofC.
  destruct (countryBreakdown r !! "DE") as [cb|] eqn:Hcb;
    [|by vm_compute in Hcb].
  exists cb. split; [done|].
  destruct (proj2 (country_breakdown_counts
                     Examples.host exactRounding Examples.rescued "DE") cb Hcb)
    as (Ha & _ & Ht & _).
  by split.
Defined.

Module CountryPspFacts.

Import Improved CountryFacts.

(** A count of [P] in a country, 0 without an entry. *)
Lemma pspBreakdown_count R (g : list TransactionJourney) P
    (proj : PSPBreakdown → nat) (q : TransactionJourney → bool) :
  (∀ j, q j = true → Spec.involves P j = true) →
  proj (pspBreakdownEntry R g P) = countIf q g →
  from_option proj 0 (pspBreakdown (countryMetrics R g) !! P) = countIf q g.
Proof.
  intros Hq Hproj. rewrite pspBreakdown_lookup. case_bool_decide as Hin.
  - exact Hproj.
  - symmetry. unfold countIf.
    destruct (List.filter q g) as [|j l] eqn:Hf; [done|]. exfalso.
    assert (Hne : List.filter q g ≠ []) by (by rewrite Hf).
    apply filter_nonempty in Hne as (j' & Hj' & Hp).
    apply Hin, countryPSPs_elem. exists j'. split; [done|].
    apply Hq in Hp. by apply bool_decide_eq_true in Hp.
Qed.

Lemma country_of_lookup H R txs c cb :
  countryBreakdown (improvedAnalyzeData H R txs) !! c = Some cb →
  cb = countryMetrics R
         (List.filter (fun j => bool_decide (country j = c))
                      (objectValues (buildJourneys H txs))).
Proof.
  simpl. rewrite lookup_fmap, groupByCountry_lookup.
  destruct (List.filter _ _); [done|]. by intros [= <-].
Qed.

End CountryPspFacts.

(** X10. In the breakdown of country [c], PSP [P] has an entry exactly when
    a journey of the country involves it; the entry counts the journeys of
    the country that involve [P]: those [P] approved, those it did not, and
    their total, which is at least 1. *)
Theorem country_psp_breakdown (H : Host) (R : Rounding)
    (txs : list Transaction) (c : string) (cb : CountryBreakdown)
    (P : string) :
  let r := improvedAnalyzeData H R txs in
  let ofC := List.filter (fun j => bool_decide (country j = c))
                         (objectValues (transactionJourneys r)) in
  countryBreakdown r !! c = Some cb →
  (is_Some (pspBreakdown cb !! P) ↔ ∃ j, j ∈ ofC ∧ P ∈ pspsInvolved j) ∧
  ∀ pb, pspBreakdown cb !! P = Some pb →
        approvedTransactions pb = Spec.journeysApprovedBy P ofC ∧
        declinedTransactions pb = Spec.journeysDeclinedBy P ofC ∧
        totalTransactions pb = Spec.journeysInvolving P ofC ∧
        1 ≤ totalTransactions pb.
Proof.
  intros r ofC Hcb. subst r. simpl in ofC.
  apply CountryPspFacts.country_of_lookup in Hcb. fold ofC in Hcb. subst cb.
  rewrite CountryFacts.pspBreakdown_lookup, <- CountryFacts.countryPSPs_elem.
  split.
  - case_bool_decide; split; (done || eauto || by intros [? [=]]).
  - intros pb. case_bool_decide as Hin; [|done]. intros [= <-].
    destruct (CountryFacts.pspBreakdownEntry_counts R ofC P)
      as (Ha & Hd & Ht).
    split_and!; [done..|]. rewrite Ht.
    apply CountryFacts.countryPSPs_elem in Hin as (j & Hj & HP).
    apply (countIf_pos _ _ j); [done|]. by apply bool_decide_eq_true.
Qed.

(** X10 on the sample [Examples.rescued], for country DE and PSP A. *)
Lemma country_psp_breakdown_witness :
  let r := improvedAnalyzeData Examples.host exactRounding Examples.rescued in
  let ofC := List.filter (fun j => bool_decide (country j = "DE"))
                         (objectValues (transactionJourneys r)) in
  ∃ cb pb, countryBreakdown r !! "DE" = Some cb ∧
           pspBreakdown cb !! "A" = Some pb ∧
           approvedTransactions pb = Spec.journeysApprovedBy "A" ofC ∧
           totalTransactions pb = Spec.journeysInvolving "A" ofC.
Proof.
  intros r ofC.
  destruct (countryBreakdown r !! "DE") as [cb|] eqn:Hcb;
    [|by vm_compute in Hcb].
  destruct (pspBreakdown cb !! "A") as [pb|] eqn:Hpb.
  - exists cb, pb. split; [done|]. split; [done|].
    destruct (proj2 (country_psp_breakdown Examples.host exactRounding
                       Examples.rescued "DE" cb "A" Hcb) pb Hpb)
      as (Ha & _ & Ht & _).
    by split.
  - exfalso. vm_compute in Hcb. injection Hcb as <-. by vm_compute in Hpb.
Defined.

(** X11. The country breakdown and the PSP statistics agree: summed over
    the countries, the approved and declined journeys of PSP [P] are the
    [uniqueApproved] and [uniqueDeclined] of [P]. *)
Theorem country_breakdown_sums_to_psp_stats (H : Host) (R : Rounding)
    (txs : list Transaction) (P : string) (s : PSPStats) :
  let r := improvedAnalyzeData H R txs in
  pspStats r !! P = Some s →
  sumOf (fun cb => from_option approvedTransactions 0 (pspBreakdown cb !! P))
        (objectValues (countryBreakdown r))
    = uniqueApproved s ∧
  sumOf (fun cb => from_option declinedTransactions 0 (pspBreakdown cb !! P))
        (objectValues (countryBreakdown r))
    = uniqueDeclined s.
Proof.
  intros r Hs. destruct (CountryFacts.unique_counts H R txs P s Hs) as [-> ->].
  simpl. split.
  - apply (TotalsFacts.countryTotals_sum R
             (fun j => Spec.involves P j && Spec.approvedIn P j)).
    intros g. apply CountryPspFacts.pspBreakdown_count.
    + by intros j [? _]%andb_true_iff.
    + apply CountryFacts.pspBreakdownEntry_counts.
  - apply (TotalsFacts.countryTotals_sum R
             (fun j => Spec.involves P j && negb (Spec.approvedIn P j))).
    intros g. apply CountryPspFacts.pspBreakdown_count.
    + by intros j [? _]%andb_true_iff.
    + apply CountryFacts.pspBreakdownEntry_counts.
Qed.

(** X11 on the sample [Examples.rescued], for PSP A. *)
Lemma country_breakdown_sums_to_psp_stats_witness :
  let r := improvedAnalyzeData Examples.host exactRounding Examples.rescued in
  let s := default zeroStats (pspStats r !! "A") in
  sumOf (fun cb => from_option approvedTransactions 0 (pspBreakdown cb !! "A"))
        (objectValues (countryBreakdown r))
    = uniqueApproved s.
Proof.
  intros r s.
  apply (country_breakdown_sums_to_psp_stats
           Examples.host exactRounding Examples.rescued "A" s).
  vm_compute. reflexivity.
Defined.

(** ** More on [recalculateWithPSPExclusions] *)

Module RecountFacts.

Import Improved Recount.

Lemma recount_fst E (l : list TransactionJourney) (acc : nat * nat) :
  (foldl (recount E) acc l).1
  = acc.1 + countIf (approvedByNonExcludedPSP E) l.
Proof.
  revert acc. induction l as [|j l IH]; intros acc; [cbn; lia|].
  rewrite StatsFacts.countIf_cons. cbn [foldl]. rewrite IH. unfold recount.
  destruct (approvedByNonExcludedPSP E j); simpl; [lia|].
  destruct (nonExcludedPSPInvolved E j); simpl; lia.
Qed.

Lemma recount_snd E (l : list TransactionJourney) (acc : nat * nat) :
  (foldl (recount E) acc l).2
  = acc.2 + countIf (fun j => negb (approvedByNonExcludedPSP E j)
                              && nonExcludedPSPInvolved E j) l.
Proof.
  revert acc. induction l as [|j l IH]; intros acc; [cbn; lia|].
  rewrite StatsFacts.countIf_cons. cbn [foldl]. rewrite IH. unfold recount.
  destruct (approvedByNonExcludedPSP E j); simpl; [lia|].
  destruct (nonExcludedPSPInvolved E j); simpl; lia.
Qed.

(** The result for a non-empty exclusion list. *)
Lemma recalculate_nonempty R r (E : list string) :
  E ≠ [] →
  recalculateWithPSPExclusions R r E
  = mkTotals R
      (countIf (approvedUnder E) (objectValues (transactionJourneys r)))
      (countIf (declinedUnder E) (objectValues (transactionJourneys r))).
Proof.
  intros HE. unfold recalculateWithPSPExclusions.
  destruct E as [|p E]; [done|].
  set (E' := p :: E). set (l := List.filter _ _).
  pose proof (recount_fst E' l (0, 0)) as Hfst.
  pose proof (recount_snd E' l (0, 0)) as Hsnd.
  destruct (foldl (recount E') (0, 0) l) as [a d]. simpl in Hfst, Hsnd.
  subst a d. unfold l. by rewrite !ClaimFacts.countIf_filter.
Qed.

Lemma excluded_ext (E E' : list string) name :
  (∀ x, x ∈ E ↔ x ∈ E') → excluded E name = excluded E' name.
Proof. intros Hext. unfold excluded. by apply bool_decide_ext. Qed.

Lemma existsb_ext_in {A} (p q : A → bool) (l : list A) :
  (∀ x, x ∈ l → p x = q x) → existsb p l = existsb q l.
Proof.
  intros Hpq. induction l as [|x l IH]; simpl; [done|].
  rewrite (Hpq x) by (by left). f_equal. apply IH.
  intros y Hy. apply Hpq. by right.
Qed.

Lemma under_ext (E E' : list string) j :
  (∀ x, x ∈ E ↔ x ∈ E') →
  approvedUnder E j = approvedUnder E' j
  ∧ declinedUnder E j = declinedUnder E' j.
Proof.
  intros Hext. unfold approvedUnder, declinedUnder,
    approvedByNonExcludedPSP, nonExcludedPSPInvolved.
  rewrite (existsb_ext_in _ (fun psp => negb (excluded E' psp)) (pspsInvolved j))
    by (intros; by rewrite (excluded_ext E E')).
  rewrite (existsb_ext_in _
             (fun a => negb (excluded E' (pspName a)) && isApproving a)
             (attempts j))
    by (intros; by rewrite (excluded_ext E E')).
  rewrite (existsb_ext_in (fun a => negb (excluded E (pspName a)))
             (fun a => negb (excluded E' (pspName a))) (attempts j))
    by (intros; by rewrite (excluded_ext E E')).
  done.
Qed.

Lemma countIf_none {A} (p : A → bool) (l : list A) :
  (∀ x, x ∈ l → p x = false) → countIf p l = 0.
Proof.
  intros Hp. unfold countIf. induction l as [|x l IH]; simpl; [done|].
  rewrite (Hp x) by (by left). apply IH. intros y Hy. apply Hp. by right.
Qed.

Lemma existsb_false {A} (p : A → bool) (l : list A) :
  (∀ x, x ∈ l → p x = false) → existsb p l = false.
Proof.
  intros Hp. induction l as [|x l IH]; simpl; [done|].
  rewrite (Hp x) by (by left). apply IH. intros y Hy. apply Hp. by right.
Qed.

(** Under a list that excludes no PSP of a journey, the journey counts by
    its final status. *)
Lemma under_absent (E : list string) j :
  Inv.improvedJourney j →
  (∀ a, a ∈ attempts j → pspName a ∉ E) →
  approvedUnder E j = isSuccess (finalStatus j)
  ∧ declinedUnder E j = isFailed (finalStatus j).
Proof.
  intros (Hne & Hpsps & _ & Hfinal) Habsent.
  assert (Hex : ∀ a, a ∈ attempts j → excluded E (pspName a) = false).
  { intros a Ha. apply bool_decide_eq_false. by apply Habsent. }
  assert (Hkeep : existsb (fun psp => negb (excluded E psp)) (pspsInvolved j)
                  = true).
  { destruct (attempts j) as [|a l] eqn:Hatt; [done|].
    apply existsb_elem. exists (pspName a). split.
    - rewrite Hpsps, newSet_elem. by left.
    - rewrite (Hex a); [done | by left]. }
  assert (Happ : approvedByNonExcludedPSP E j = existsb isApproving (attempts j)).
  { apply existsb_ext_in. intros a Ha. by rewrite (Hex a Ha). }
  assert (Hinv : nonExcludedPSPInvolved E j = true).
  { unfold nonExcludedPSPInvolved.
    destruct (attempts j) as [|a l] eqn:Hatt; [done|].
    apply existsb_elem. exists a. split; [by left|].
    rewrite (Hex a); [done | by left]. }
  unfold approvedUnder, declinedUnder. rewrite Hkeep, Happ, Hinv. simpl.
  destruct (finalStatus j) eqn:Hs.
  - rewrite (proj1 Hfinal eq_refl). done.
  - destruct (existsb isApproving (attempts j)); [|done].
    by specialize (proj2 Hfinal eq_refl).
Qed.

Lemma approvedUnder_mono (E E' : list string) j :
  (∀ x, x ∈ E → x ∈ E') → approvedUnder E' j = true → approvedUnder E j = true.
Proof.
  intros Hsub. unfold approvedUnder, approvedByNonExcludedPSP, excluded.
  rewrite !andb_true_iff, !existsb_elem.
  intros [(n & Hn & Hne) (a & Ha & Hnea)]. split.
  - exists n. split; [done|]. apply negb_true_iff, bool_decide_eq_false.
    apply negb_true_iff, bool_decide_eq_false in Hne. auto.
  - exists a. split; [done|]. apply andb_true_iff in Hnea as [Hnea Happ].
    apply andb_true_iff. split; [|done].
    apply negb_true_iff, bool_decide_eq_false.
    apply negb_true_iff, bool_decide_eq_false in Hnea. auto.
Qed.

End RecountFacts.

(** X12. [recalculateWithPSPExclusions] depends on the exclusion list as a
    set: two lists with the same elements, in any order and with any
    repetition, give the same result. *)
Theorem exclusion_list_as_set (R : Rounding) (r : ImprovedAnalysisResults)
    (E E' : list string) :
  (∀ x, x ∈ E ↔ x ∈ E') →
  recalculateWithPSPExclusions R r E = recalculateWithPSPExclusions R r E'.
Proof.
  intros Hext. destruct E as [|p E], E' as [|p' E'].
  - done.
  - exfalso. apply (elem_of_nil p'), Hext. by left.
  - exfalso. apply (elem_of_nil p), Hext. by left.
  - rewrite !RecountFacts.recalculate_nonempty by done.
    f_equal; apply StatsFacts.countIf_ext; intros j _;
      by apply RecountFacts.under_ext.
Qed.

(** X12 on the sample [Examples.rescued]. *)
Lemma exclusion_list_as_set_witness :
  let r := improvedAnalyzeData Examples.host exactRounding Examples.rescued in
  recalculateWithPSPExclusions exactRounding r ["A"; "B"]
  = recalculateWithPSPExclusions exactRounding r ["B"; "A"; "B"].
Proof.
  intros r. apply exclusion_list_as_set. intros x.
  rewrite !elem_of_cons, elem_of_nil. tauto.
Defined.

(** X13. Excluding every PSP of a result of [improvedAnalyzeData] leaves
    nothing: the three totals and the rate are 0. *)
Theorem excluding_every_psp (H : Host) (R : Rounding)
    (txs : list Transaction) (E : list string) :
  let r := improvedAnalyzeData H R txs in
  E ≠ [] →
  (∀ P, is_Some (pspStats r !! P) → P ∈ E) →
  let t := recalculateWithPSPExclusions R r E in
  totalApprovedTransactions t = 0 ∧
  totalUniqueDeclinedTransactions t = 0 ∧
  totalProcessedTransactions t = 0 ∧
  weightedSuccessRate t = 0%Q.
Proof.
  intros r HE Hall t. unfold t.
  rewrite RecountFacts.recalculate_nonempty by done.
  assert (Hkeep : ∀ j, j ∈ objectValues (transactionJourneys r) →
            existsb (fun psp => negb (excluded E psp)) (pspsInvolved j) = false).
  { intros j Hj. apply RecountFacts.existsb_false. intros P HP.
    apply negb_false_iff, bool_decide_eq_true. apply Hall.
    apply PspStatsFacts.computePspStats_is_Some.
    destruct (ImprovedFacts.journeyArray_improvedJourney H txs j Hj)
      as (_ & Hpsps & _).
    rewrite Hpsps, newSet_elem in HP.
    apply list_elem_of_fmap in HP as (a & -> & Ha).
    apply list_elem_of_fmap. exists a. split; [done|].
    apply list_elem_of_bind. eauto. }
  rewrite !RecountFacts.countIf_none.
  - done.
  - intros j Hj. unfold Recount.declinedUnder. by rewrite Hkeep.
  - intros j Hj. unfold Recount.approvedUnder. by rewrite Hkeep.
Qed.

(** X13 on the sample [Examples.rescued]. *)
Lemma excluding_every_psp_witness :
  let r := improvedAnalyzeData Examples.host exactRounding Examples.rescued in
  let t := recalculateWithPSPExclusions exactRounding r ["A"; "B"] in
  totalApprovedTransactions t = 0 ∧
  totalUniqueDeclinedTransactions t = 0 ∧
  totalProcessedTransactions t = 0 ∧
  weightedSuccessRate t = 0%Q.
Proof.
  intros r.
  apply (excluding_every_psp Examples.host exactRounding Examples.rescued
           ["A"; "B"]); [done|].
  intros P HP.
  destruct (decide (P = "A")) as [->|HA]; [by left|].
  destruct (decide (P = "B")) as [->|HB]; [right; by left|].
  exfalso.
  apply (PspStatsFacts.computePspStats_is_Some exactRounding) in HP.
  vm_compute in HP.
  apply elem_of_cons in HP as [->|HP]; [done|].
  apply elem_of_cons in HP as [->|HP]; [done|].
  apply elem_of_cons in HP as [->|HP]; [done|].
  by apply elem_of_nil in HP.
Defined.

(** X14. Excluding only PSPs that have no attempt changes nothing: the
    totals and the rate are those of [transactionLevelMetrics]. *)
Theorem excluding_absent_psps (H : Host) (R : Rounding)
    (txs : list Transaction) (E : list string) :
  let r := improvedAnalyzeData H R txs in
  (∀ P, P ∈ E → pspStats r !! P = None) →
  recalculateWithPSPExclusions R r E = transactionLevelMetrics r.
Proof.
  intros r Habsent. destruct (decide (E = [])) as [->|HE].
  { simpl. done. }
  rewrite RecountFacts.recalculate_nonempty by done.
  set (js := objectValues (transactionJourneys r)).
  assert (Hunder : ∀ j, j ∈ js →
            Recount.approvedUnder E j = isSuccess (finalStatus j)
            ∧ Recount.declinedUnder E j = isFailed (finalStatus j)).
  { intros j Hj. apply RecountFacts.under_absent.
    - by apply (ImprovedFacts.journeyArray_improvedJourney H txs).
    - intros a Ha HinE. specialize (Habsent _ HinE).
      assert (Hsome : is_Some (pspStats r !! pspName a)).
      { apply PspStatsFacts.computePspStats_is_Some.
        apply list_elem_of_fmap. exists a. split; [done|].
        apply list_elem_of_bind. eauto. }
      rewrite Habsent in Hsome. by destruct Hsome. }
  destruct (TotalsFacts.transactionLevel_totals H R txs) as (Ha & Hd & _).
  fold r js in Ha, Hd.
  rewrite (StatsFacts.countIf_ext (Recount.approvedUnder E)
             (fun j => isSuccess (finalStatus j)) js)
    by (intros j Hj; apply Hunder, Hj).
  rewrite (StatsFacts.countIf_ext (Recount.declinedUnder E)
             (fun j => isFailed (finalStatus j)) js)
    by (intros j Hj; apply Hunder, Hj).
  rewrite <- Ha, <- Hd. done.
Qed.

(** X14 on the sample [Examples.rescued], excluding a PSP C. *)
Lemma excluding_absent_psps_witness :
  let r := improvedAnalyzeData Examples.host exactRounding Examples.rescued in
  recalculateWithPSPExclusions exactRounding r ["C"]
  = transactionLevelMetrics r.
Proof.
  intros r.
  apply (excluding_absent_psps Examples.host exactRounding Examples.rescued).
  intros P ->%list_elem_of_singleton. vm_compute. reflexivity.
Defined.

(** X15. On a result of [improvedAnalyzeData], excluding more PSPs never
    raises [totalApprovedTransactions]. *)
Theorem exclusion_approved_monotone (H : Host) (R : Rounding)
    (txs : list Transaction) (E E' : list string) :
  let r := improvedAnalyzeData H R txs in
  (∀ x, x ∈ E → x ∈ E') →
  totalApprovedTransactions (recalculateWithPSPExclusions R r E')
  ≤ totalApprovedTransactions (recalculateWithPSPExclusions R r E).
Proof.
  intros r Hsub. destruct E' as [|p' E'].
  - destruct E as [|p E]; [done|].
    specialize (Hsub p ltac:(by left)). by apply elem_of_nil in Hsub.
  - rewrite (RecountFacts.recalculate_nonempty R r (p' :: E')) by done.
    destruct E as [|p E].
    + simpl recalculateWithPSPExclusions.
      destruct (TotalsFacts.transactionLevel_totals H R txs) as (Ha & _ & _).
      fold r in Ha. cbn [totalApprovedTransactions mkTotals].
      change (totalApprovedTransactions (transactionLevelMetrics r)
              = countIf (fun j => isSuccess (finalStatus j))
                        (objectValues (transactionJourneys r))) in Ha.
      etrans; [|apply Nat.eq_le_incl; symmetry; exact Ha].
      rewrite !countIf_sum_list. apply sum_list_fmap_le. intros j Hj.
      destruct (Recount.approvedUnder (p' :: E') j) eqn:Hunder; [|lia].
      destruct (ImprovedFacts.journeyArray_improvedJourney H txs j Hj)
        as (_ & _ & _ & Hfinal).
      apply andb_true_iff in Hunder as [_ Happ].
      apply existsb_elem in Happ as (a & Hin & Hcond).
      apply andb_true_iff in Hcond as [_ Happroving].
      rewrite (proj2 Hfinal); [done|].
      apply existsb_elem. eauto.
    + rewrite (RecountFacts.recalculate_nonempty R r (p :: E)) by done.
      simpl. apply ClaimFacts.countIf_mono. intros j.
      by apply RecountFacts.approvedUnder_mono.
Qed.

(** X15 on the sample [Examples.rescued]. *)
Lemma exclusion_approved_monotone_witness :
  let r := improvedAnalyzeData Examples.host exactRounding Examples.rescued in
  totalApprovedTransactions (recalculateWithPSPExclusions exactRounding r ["B"; "A"])
  ≤ totalApprovedTransactions (recalculateWithPSPExclusions exactRounding r ["B"]).
Proof.
  intros r.
  apply (exclusion_approved_monotone Examples.host exactRounding
           Examples.rescued ["B"] ["B"; "A"]).
  intros x ->%list_elem_of_singleton. by left.
Defined.

(** ** The PSP statistics of [analyzeData] *)

Module AnalyzerStatsFacts.

Import Analyzer AnalyzerSpec.

Lemma analyzer_pspsInJourney_newSet j :
  pspsInJourney j = newSet (pspName <$> attempts j).
Proof. unfold pspsInJourney, newSet. apply foldl_setAdd_fmap. Qed.

Lemma countPsp_fst j (names : list string) acc :
  (foldl (countPsp j) acc names).1 = foldl (pspStep j) acc.1 names.
Proof.
  revert acc. induction names as [|n names IH]; intros acc; simpl; [done|].
  by rewrite IH.
Qed.

Lemma pspStep_lookup j (m : gmap string PSPStats) n P :
  pspStep j m n !! P
  = if decide (n = P)
    then Some (bump (pspApprovedThisJourney j P) (default zeroStats (m !! P)))
    else m !! P.
Proof.
  unfold pspStep, ensure. case_decide as Hn.
  - subst n. rewrite lookup_alter_eq.
    destruct (m !! P) as [s|] eqn:HP; simpl.
    + by rewrite HP.
    + by rewrite lookup_insert_eq.
  - rewrite lookup_alter_ne by done.
    destruct (m !! n); [done|]. by rewrite lookup_insert_ne.
Qed.

Lemma pspStep_loop j (names : list string) (m : gmap string PSPStats) P :
  NoDup names →
  foldl (pspStep j) m names !! P
  = if bool_decide (P ∈ names)
    then Some (bump (pspApprovedThisJourney j P) (default zeroStats (m !! P)))
    else m !! P.
Proof.
  revert m. induction names as [|n names IH]; intros m Hnd; simpl; [done|].
  apply NoDup_cons in Hnd as [Hn Hnd]. rewrite IH by done.
  rewrite pspStep_lookup. destruct (decide (n = P)) as [->|Hne].
  - rewrite bool_decide_eq_false_2 by done.
    rewrite bool_decide_eq_true_2; [done | by left].
  - destruct (decide (P ∈ names)) as [Hin|Hnin].
    + rewrite !bool_decide_eq_true_2; [done | by right | done].
    + rewrite !bool_decide_eq_false_2; [done| |done].
      intros [->|?]%elem_of_cons; done.
Qed.

Lemma countJourney_fst acc j P :
  (countJourney acc j).1 !! P
  = if bool_decide (P ∈ pspsInJourney j)
    then Some (bump (pspApprovedThisJourney j P)
                    (default zeroStats (acc.1 !! P)))
    else acc.1 !! P.
Proof.
  unfold countJourney. rewrite countPsp_fst. simpl.
  apply pspStep_loop. rewrite analyzer_pspsInJourney_newSet. apply newSet_NoDup.
Qed.

Lemma bump_addCounts b a d s :
  addCounts a d (bump b s)
  = addCounts (Aux.b2n b + a) (Aux.b2n (negb b) + d) s.
Proof. destruct s, b; unfold addCounts, bump; simpl; f_equal; lia. Qed.

Lemma bump_as_addCounts b s :
  bump b s = addCounts (Aux.b2n b) (Aux.b2n (negb b)) s.
Proof. destruct s, b; unfold addCounts, bump; simpl; f_equal; lia. Qed.

(** The entry of PSP [P] after the journeys [js]. *)
Lemma analyzer_countJourney_loop (js : list Journey) acc P :
  (foldl countJourney acc js).1 !! P
  = if bool_decide
         (0 < countIf (fun j => bool_decide (P ∈ pspsInJourney j)) js)
    then Some (addCounts
                 (countIf (fun j => bool_decide (P ∈ pspsInJourney j)
                                    && pspApprovedThisJourney j P) js)
                 (countIf (fun j => bool_decide (P ∈ pspsInJourney j)
                                    && negb (pspApprovedThisJourney j P)) js)
                 (default zeroStats (acc.1 !! P)))
    else acc.1 !! P.
Proof.
  revert acc. induction js as [|j js IH]; intros acc; [done|].
  cbn [foldl]. rewrite IH, countJourney_fst, !StatsFacts.countIf_cons.
  destruct (bool_decide (P ∈ pspsInJourney j)); simpl.
  - destruct (decide (0 < countIf
                (fun j => bool_decide (P ∈ pspsInJourney j)) js)) as [Hpos|Hpos].
    + rewrite bool_decide_eq_true_2 by done.
      by rewrite bump_addCounts.
    + rewrite bool_decide_eq_false_2 by done.
      rewrite bump_as_addCounts.
      assert (Hz : ∀ p : Journey → bool,
                countIf (fun j => bool_decide (P ∈ pspsInJourney j) && p j) js = 0).
      { intros p.
        pose proof (ClaimFacts.countIf_mono
                      (fun j => bool_decide (P ∈ pspsInJourney j) && p j)
                      (fun j => bool_decide (P ∈ pspsInJourney j)) js) as Hm.
        assert (countIf (fun j => bool_decide (P ∈ pspsInJourney j)) js = 0)
          by lia.
        specialize (Hm ltac:(by intros x [? _]%andb_true_iff)). lia. }
      rewrite (Hz (fun j => pspApprovedThisJourney j P)).
      rewrite (Hz (fun j => negb (pspApprovedThisJourney j P))).
      f_equal. f_equal; lia.
  - done.
Qed.

Lemma analyzer_involves_pspsInJourney j0 P :
  involves P (finalize j0) = bool_decide (P ∈ pspsInJourney (finalize j0)).
Proof.
  unfold involves. by rewrite analyzer_pspsInJourney_newSet.
Qed.

(** The counted statistics of [P], before the ratios. *)
Lemma counted_lookup txs P :
  let js := objectValues (buildJourneys txs) in
  (foldl countJourney (∅, ∅) js).1 !! P
  = if bool_decide (0 < journeysInvolving P js)
    then Some (addCounts (journeysApprovedBy P js) (journeysDeclinedBy P js)
                         zeroStats)
    else None.
Proof.
  intros js. rewrite analyzer_countJourney_loop. simpl. rewrite lookup_empty. simpl.
  assert (Hinv : ∀ j, j ∈ js →
            bool_decide (P ∈ pspsInJourney j) = involves P j).
  { intros j [k Hk]%elem_of_objectValues.
    apply AnalyzerFacts.buildJourneys_finalized in Hk as [j0 ->].
    by rewrite analyzer_involves_pspsInJourney. }
  unfold journeysInvolving, journeysApprovedBy, journeysDeclinedBy.
  rewrite (StatsFacts.countIf_ext _ (involves P) js) by done.
  rewrite (StatsFacts.countIf_ext
             (fun j => bool_decide (P ∈ pspsInJourney j)
                       && pspApprovedThisJourney j P)
             (fun j => involves P j && pspApprovedThisJourney j P) js)
    by (intros j Hj; by rewrite Hinv).
  rewrite (StatsFacts.countIf_ext
             (fun j => bool_decide (P ∈ pspsInJourney j)
                       && negb (pspApprovedThisJourney j P))
             (fun j => involves P j && negb (pspApprovedThisJourney j P)) js)
    by (intros j Hj; by rewrite Hinv).
  done.
Qed.

Lemma withRatios_counts R s :
  total (withRatios R s) = total s ∧ approved (withRatios R s) = approved s
  ∧ declined (withRatios R s) = declined s
  ∧ filtered (withRatios R s) = filtered s ∧ other (withRatios R s) = other s.
Proof. unfold withRatios. by destruct (0 <? _). Qed.

Lemma analyzeData_pspAnalysis H R txs a :
  analyzeData H R txs = Some a →
  pspAnalysis a
  = withRatios R <$> (foldl countJourney (∅, ∅)
                            (objectValues (buildJourneys txs))).1.
Proof.
  unfold analyzeData. destruct (TimeAnalyzer.analyzeTimeData H R txs); [|done].
  simpl. by intros [= <-].
Qed.

End AnalyzerStatsFacts.

(** X16. In the result of [analyzeData], PSP [P] has an entry exactly when
    some journey involves it; the entry counts journeys, each once:
    [approved] those that [P] approved, [declined] those it did not,
    [total] all that involve [P], so [total = approved + declined], and
    [filtered] and [other] stay 0. *)
Theorem psp_analysis_counts (H : Host) (R : Rounding) (txs : list Transaction)
    (a : Analyzer.AnalysisResults) (P : string) :
  Analyzer.analyzeData H R txs = Some a →
  let js := objectValues (Analyzer.buildJourneys txs) in
  (is_Some (Analyzer.pspAnalysis a !! P)
   ↔ 0 < AnalyzerSpec.journeysInvolving P js) ∧
  ∀ s, Analyzer.pspAnalysis a !! P = Some s →
       Analyzer.approved s = AnalyzerSpec.journeysApprovedBy P js ∧
       Analyzer.declined s = AnalyzerSpec.journeysDeclinedBy P js ∧
       Analyzer.total s = AnalyzerSpec.journeysInvolving P js ∧
       Analyzer.total s = Analyzer.approved s + Analyzer.declined s ∧
       Analyzer.filtered s = 0 ∧ Analyzer.other s = 0.
Proof.
  intros Ha js. rewrite (AnalyzerStatsFacts.analyzeData_pspAnalysis H R txs a Ha).
  rewrite lookup_fmap, AnalyzerStatsFacts.counted_lookup. fold js.
  case_bool_decide as Hpos; simpl.
  - split; [split; eauto|]. intros s [= <-].
    destruct (AnalyzerStatsFacts.withRatios_counts R
                (AnalyzerSpec.addCounts (AnalyzerSpec.journeysApprovedBy P js)
                   (AnalyzerSpec.journeysDeclinedBy P js) Analyzer.zeroStats))
      as (-> & -> & -> & -> & ->).
    simpl.
    pose proof (PspStatsFacts.countIf_and_split (AnalyzerSpec.involves P)
                  (fun j => Analyzer.pspApprovedThisJourney j P) js) as Hsplit.
    unfold AnalyzerSpec.journeysApprovedBy, AnalyzerSpec.journeysDeclinedBy,
      AnalyzerSpec.journeysInvolving in *.
    split_and!; lia.
  - split; [|done]. split; [by intros [? [=]] | done].
Qed.

(** X16 on the sample [Examples.rescued], for PSP A. *)
Lemma psp_analysis_counts_witness :
  ∃ a s,
    Analyzer.analyzeData Examples.host exactRounding Examples.rescued = Some a ∧
    Analyzer.pspAnalysis a !! "A" = Some s ∧
    Analyzer.approved s = 1 ∧ Analyzer.declined s = 1 ∧ Analyzer.total s = 2.
Proof.
  destruct (Analyzer.analyzeData Examples.host exactRounding Examples.rescued)
    as [a|] eqn:Ha; [|by vm_compute in Ha].
  destruct (Analyzer.pspAnalysis a !! "A") as [s|] eqn:Hs.
  - exists a, s. split; [done|]. split; [done|].
    destruct (proj2 (psp_analysis_counts Examples.host exactRounding
                       Examples.rescued a "A" Ha) s Hs)
      as (-> & -> & -> & _).
    by vm_compute.
  - exfalso. vm_compute in Ha. injection Ha as <-. by vm_compute in Hs.
Defined.

(** ** Two dictionaries with matching values *)

Lemma sum_values_match {A B} (f : A → nat) (g : B → nat)
    (m1 : gmap string A) (m2 : gmap string B) :
  (∀ k, from_option f 0 (m1 !! k) = from_option g 0 (m2 !! k)) →
  sum_list (f <$> objectValues m1) = sum_list (g <$> objectValues m2).
Proof.
  revert m2. induction m1 as [|k x m1 Hk IH] using map_ind; intros m2 Hmatch.
  - rewrite objectValues_empty. symmetry. apply sum_values_zero.
    intros k y Hy. specialize (Hmatch k). rewrite lookup_empty, Hy in Hmatch.
    simpl in Hmatch. lia.
  - rewrite (objectValues_insert m1 k x Hk). csimpl.
    rewrite (IH (delete k m2)).
    + specialize (Hmatch k). rewrite lookup_insert_eq in Hmatch.
      simpl in Hmatch. destruct (m2 !! k) as [y|] eqn:Hy; simpl in Hmatch.
      * rewrite (objectValues_delete m2 k y Hy). csimpl. lia.
      * rewrite delete_id by done. lia.
    + intros k'. destruct (decide (k = k')) as [<-|Hne].
      * rewrite lookup_delete_eq, Hk. done.
      * rewrite lookup_delete_ne by done.
        rewrite <- Hmatch. by rewrite lookup_insert_ne.
Qed.

(** ** The journeys of the two analyzers *)

Module AgreeFacts.

Import AnalyzerSpec.

Lemma analyzer_addTransaction_lookup (m : gmap string Analyzer.Journey) tx k :
  Analyzer.addTransaction m tx !! k
  = if decide (orderIdOf tx = k)
    then Some (Analyzer.pushAttempt (Analyzer.newAttempt tx)
                 (default (Analyzer.newJourney (orderIdOf tx) tx)
                          (m !! orderIdOf tx)))
    else m !! k.
Proof.
  unfold Analyzer.addTransaction. case_decide as Hk.
  - subst k. rewrite lookup_alter_eq.
    destruct (m !! orderIdOf tx) as [j|] eqn:Hj; simpl.
    + by rewrite Hj.
    + by rewrite lookup_insert_eq.
  - rewrite lookup_alter_ne by done.
    destruct (m !! orderIdOf tx); [done|]. by rewrite lookup_insert_ne.
Qed.

Lemma analyzer_grouped (txs : list Transaction)
    (m : gmap string Analyzer.Journey) k :
  attemptSummary <$> from_option Analyzer.attempts []
                       (foldl Analyzer.addTransaction m txs !! k)
  = (attemptSummary <$> from_option Analyzer.attempts [] (m !! k))
      ++ (Input.txSummary <$> Input.txsOf k txs).
Proof.
  revert m. induction txs as [|tx txs IH]; intros m; simpl.
  - by rewrite app_nil_r.
  - rewrite IH, analyzer_addTransaction_lookup. unfold Input.txsOf. simpl.
    destruct (decide (orderIdOf tx = k)) as [Hk|Hk].
    + rewrite bool_decide_eq_true_2 by done. subst k. simpl.
      rewrite fmap_app, <- app_assoc. f_equal.
      by destruct (m !! orderIdOf tx).
    + by rewrite bool_decide_eq_false_2.
Qed.

(** The attempts of order [k] in [analyzeData], up to their order. *)
Lemma analyzer_summary (txs : list Transaction) k :
  attemptSummary <$> from_option Analyzer.attempts []
                       (Analyzer.buildJourneys txs !! k)
  ≡ₚ Input.txSummary <$> Input.txsOf k txs.
Proof.
  unfold Analyzer.buildJourneys. rewrite lookup_fmap.
  pose proof (analyzer_grouped txs ∅ k) as Hg.
  rewrite lookup_empty in Hg. simpl in Hg. rewrite <- Hg.
  destruct (foldl Analyzer.addTransaction ∅ txs !! k) as [j0|]; simpl; [|done].
  by rewrite AnalyzerFacts.analyzer_sortAttempts_perm.
Qed.

(** The attempts of order [k] in [improvedAnalyzeData], up to their order. *)
Lemma improved_summary H (txs : list Transaction) k :
  Input.attemptSummary <$> from_option Improved.attempts []
                             (Improved.buildJourneys H txs !! k)
  ≡ₚ Input.txSummary <$> Input.txsOf k txs.
Proof.
  rewrite JourneyFacts.journey_lookup.
  pose proof (GroupFacts.orderFold_attempts H k txs 0 None) as Hg.
  simpl in Hg. rewrite <- Hg.
  destruct (Input.orderFold H k 0 txs None) as [j0|]; [|done].
  apply JourneyFacts.finalize_summary.
Qed.

Lemma existsb_fmap {A B} (f : A → B) (p : B → bool) (l : list A) :
  existsb p (f <$> l) = existsb (fun x => p (f x)) l.
Proof. induction l as [|x l IH]; csimpl; [done|]. by rewrite IH. Qed.

Lemma improved_involves P j :
  Inv.improvedJourney j →
  Spec.involves P j
  = listInvolves P (Input.attemptSummary <$> Improved.attempts j).
Proof.
  intros (_ & Hpsps & _). unfold Spec.involves, listInvolves.
  rewrite existsb_fmap, Hpsps. apply eq_true_iff_eq.
  rewrite bool_decide_eq_true, newSet_elem, existsb_elem, list_elem_of_fmap.
  split.
  - intros (a & -> & Ha). exists a. split; [done|].
    by apply bool_decide_eq_true.
  - intros (a & Ha & Heq). exists a. split; [|done].
    by apply bool_decide_eq_true in Heq.
Qed.

Lemma improved_approved P j :
  Spec.approvedIn P j
  = listApproved P (Input.attemptSummary <$> Improved.attempts j).
Proof. unfold Spec.approvedIn, listApproved. by rewrite existsb_fmap. Qed.

Lemma analyzer_involves P j0 :
  involves P (Analyzer.finalize j0)
  = listInvolves P (attemptSummary <$> Analyzer.attempts (Analyzer.finalize j0)).
Proof.
  unfold involves, listInvolves. rewrite existsb_fmap.
  rewrite AnalyzerFacts.finalize_pspsInvolved. apply eq_true_iff_eq.
  rewrite bool_decide_eq_true, newSet_elem, existsb_elem, list_elem_of_fmap.
  split.
  - intros (a & -> & Ha). exists a. split; [done|].
    by apply bool_decide_eq_true.
  - intros (a & Ha & Heq). exists a. split; [|done].
    by apply bool_decide_eq_true in Heq.
Qed.

Lemma analyzer_approved P j :
  Analyzer.pspApprovedThisJourney j P
  = listApproved P (attemptSummary <$> Analyzer.attempts j).
Proof.
  unfold Analyzer.pspApprovedThisJourney, listApproved.
  by rewrite existsb_fmap.
Qed.

(** A count of journeys that reads only the PSPs and statuses of a journey
    is the same over the journeys of the two analyzers. *)
Lemma counts_agree H (txs : list Transaction)
    (c : list (string * string) → bool) :
  (∀ l l', l ≡ₚ l' → c l = c l') → c [] = false →
  countIf (fun j => c (Input.attemptSummary <$> Improved.attempts j))
          (objectValues (Improved.buildJourneys H txs))
  = countIf (fun j => c (attemptSummary <$> Analyzer.attempts j))
            (objectValues (Analyzer.buildJourneys txs)).
Proof.
  intros Hperm Hnil. rewrite !countIf_sum_list.
  apply sum_values_match. intros k.
  pose proof (improved_summary H txs k) as HI.
  pose proof (analyzer_summary txs k) as HA.
  rewrite <- HA in HI. apply Hperm in HI.
  destruct (Improved.buildJourneys H txs !! k),
    (Analyzer.buildJourneys txs !! k); simpl in *;
    rewrite ?Hnil in HI; by rewrite ?HI, <- ?HI.
Qed.

Lemma listInvolves_perm P l l' : l ≡ₚ l' → listInvolves P l = listInvolves P l'.
Proof. apply existsb_perm. Qed.

Lemma listApproved_perm P l l' : l ≡ₚ l' → listApproved P l = listApproved P l'.
Proof. apply existsb_perm. Qed.

(** The journeys that involve [P], and those that [P] approved, are as many
    in the two analyzers. *)
Lemma journeys_agree H (txs : list Transaction) P :
  let jsI := objectValues (Improved.buildJourneys H txs) in
  let jsA := objectValues (Analyzer.buildJourneys txs) in
  Spec.journeysApprovedBy P jsI = journeysApprovedBy P jsA ∧
  Spec.journeysDeclinedBy P jsI = journeysDeclinedBy P jsA ∧
  Spec.journeysInvolving P jsI = journeysInvolving P jsA.
Proof.
  intros jsI jsA.
  assert (HwfI : ∀ j, j ∈ jsI → Inv.improvedJourney j)
    by apply ImprovedFacts.journeyArray_improvedJourney.
  assert (HwfA : ∀ j, j ∈ jsA → ∃ j0, j = Analyzer.finalize j0).
  { intros j [k Hk]%elem_of_objectValues.
    by apply AnalyzerFacts.buildJourneys_finalized in Hk. }
  assert (Hgen : ∀ (q : bool → bool → bool),
    q false false = false →
    countIf (fun j => q (Spec.involves P j) (Spec.approvedIn P j)) jsI
    = countIf (fun j => q (involves P j) (Analyzer.pspApprovedThisJourney j P))
              jsA).
  { intros q Hq.
    rewrite (StatsFacts.countIf_ext _
               (fun j => (fun l => q (listInvolves P l) (listApproved P l))
                           (Input.attemptSummary <$> Improved.attempts j)) jsI).
    2:{ intros j Hj. simpl.
        by rewrite (improved_involves P j (HwfI j Hj)), improved_approved. }
    rewrite (StatsFacts.countIf_ext
               (fun j => q (involves P j) (Analyzer.pspApprovedThisJourney j P))
               (fun j => (fun l => q (listInvolves P l) (listApproved P l))
                           (attemptSummary <$> Analyzer.attempts j)) jsA).
    2:{ intros j Hj. simpl. destruct (HwfA j Hj) as [j0 ->].
        by rewrite analyzer_involves, analyzer_approved. }
    apply (counts_agree H txs
             (fun l => q (listInvolves P l) (listApproved P l))).
    - intros l l' Hl.
      by rewrite (listInvolves_perm P l l' Hl), (listApproved_perm P l l' Hl).
    - done. }
  unfold Spec.journeysApprovedBy, Spec.journeysDeclinedBy,
    Spec.journeysInvolving, journeysApprovedBy, journeysDeclinedBy,
    journeysInvolving.
  split_and!.
  - apply (Hgen andb). done.
  - apply (Hgen (fun a b => a && negb b)). done.
  - apply (Hgen (fun a _ => a)). done.
Qed.

End AgreeFacts.

(** X17. The two analyzers agree on the unique counts: for every PSP, the
    [approved] and [declined] of [analyzeData] are the [uniqueApproved] and
    [uniqueDeclined] of [improvedAnalyzeData] on the same transactions, and
    a PSP has an entry in one exactly when it has one in the other. *)
Theorem analyzers_agree (H : Host) (R : Rounding) (txs : list Transaction)
    (a : Analyzer.AnalysisResults) (P : string) :
  Analyzer.analyzeData H R txs = Some a →
  let r := improvedAnalyzeData H R txs in
  (is_Some (Analyzer.pspAnalysis a !! P) ↔ is_Some (pspStats r !! P)) ∧
  ∀ s s', Analyzer.pspAnalysis a !! P = Some s → pspStats r !! P = Some s' →
          Analyzer.approved s = uniqueApproved s' ∧
          Analyzer.declined s = uniqueDeclined s' ∧
          Analyzer.total s = uniqueApproved s' + uniqueDeclined s'.
Proof.
  intros Ha r.
  destruct (AgreeFacts.journeys_agree H txs P) as (HA & HD & HI).
  rewrite (AnalyzerStatsFacts.analyzeData_pspAnalysis H R txs a Ha).
  rewrite lookup_fmap, AnalyzerStatsFacts.counted_lookup.
  split.
  - rewrite <- HI. simpl pspStats.
    rewrite PspStatsFacts.computePspStats_is_Some.
    case_bool_decide as Hpos; simpl.
    + split; [|by eauto]. intros _.
      apply PspStatsFacts.involved_attempt; [|done].
      apply ImprovedFacts.journeyArray_improvedJourney.
    + split; [by intros [? [=]]|]. intros Hin. exfalso. apply Hpos.
      apply list_elem_of_fmap in Hin as (at0 & -> & Hat).
      apply list_elem_of_bind in Hat as (j & Hat & Hj).
      unfold Spec.journeysInvolving.
      apply (countIf_pos _ _ j); [done|]. apply bool_decide_eq_true.
      destruct (ImprovedFacts.journeyArray_improvedJourney H txs j Hj)
        as (_ & -> & _).
      apply newSet_elem, list_elem_of_fmap. eauto.
  - intros s s' Hs Hs'.
    destruct (CountryFacts.unique_counts H R txs P s' Hs') as [-> ->].
    fold (Spec.journeysApprovedBy P (objectValues (buildJourneys H txs))).
    fold (Spec.journeysDeclinedBy P (objectValues (buildJourneys H txs))).
    rewrite HA, HD.
    case_bool_decide; [|done]. simpl in Hs. injection Hs as <-.
    destruct (AnalyzerStatsFacts.withRatios_counts R
                (AnalyzerSpec.addCounts
                   (AnalyzerSpec.journeysApprovedBy P
                      (objectValues (Analyzer.buildJourneys txs)))
                   (AnalyzerSpec.journeysDeclinedBy P
                      (objectValues (Analyzer.buildJourneys txs)))
                   Analyzer.zeroStats))
      as (-> & -> & -> & _).
    simpl. split_and!; lia.
Qed.

(** X17 on the sample [Examples.rescued], for PSP A. *)
Lemma analyzers_agree_witness :
  ∃ a s s',
    Analyzer.analyzeData Examples.host exactRounding Examples.rescued = Some a ∧
    Analyzer.pspAnalysis a !! "A" = Some s ∧
    pspStats (improvedAnalyzeData Examples.host exactRounding Examples.rescued)
      !! "A" = Some s' ∧
    Analyzer.approved s = uniqueApproved s' ∧
    Analyzer.declined s = uniqueDeclined s'.
Proof.
  destruct (Analyzer.analyzeData Examples.host exactRounding Examples.rescued)
    as [a|] eqn:Ha; [|by vm_compute in Ha].
  destruct (Analyzer.pspAnalysis a !! "A") as [s|] eqn:Hs.
  - destruct (pspStats (improvedAnalyzeData Examples.host exactRounding
                          Examples.rescued) !! "A") as [s'|] eqn:Hs';
      [|by vm_compute in Hs'].
    exists a, s, s'. split_and!; [done..| |];
      apply (proj2 (analyzers_agree Examples.host exactRounding
                      Examples.rescued a "A" Ha) s s' Hs Hs').
  - exfalso. vm_compute in Ha. injection Ha as <-. by vm_compute in Hs.
Defined.
